(** * Survey-extract preprocessing: a shallow embedding of
      [src/data_preprocessing.py] and the properties of its four stages.

    The program is a pandas pipeline.  A table is modelled row-wise: a
    list of column labels (duplicates allowed, in order) and a list of
    rows, each row an association list from label to cell value.  Every
    operation of the program treats rows positionally (boolean masks are
    computed from the frame they index, and both concatenations reset
    the index), so row labels are not modelled.  Python sets of labels
    are [gset string]; the order in which a set is listed is arbitrary
    and is an explicit parameter ([SetOrder]).  Exceptions are values of
    an error monad. *)

From Stdlib Require Import QArith Ascii String.
From stdpp Require Import gmap strings list.

Open Scope string_scope.
Open Scope list_scope.

(** ** Cell values, rows and frames *)

(** A cell holds a number (integers and floats alike, as the exact
    rational they denote), a string, or the missing marker NaN.  The
    type does not record whether a number is stored as an integer or as
    a float: the two differ only for an integer of magnitude above 2^53,
    which no float64 holds. *)
Inductive value : Type :=
  | VNum (q : Q)
  | VStr (s : string)
  | VNaN.

Definition row : Type := list (string * value).

Record DataFrame : Type := mkDF {
  columns : list string;
  rows : list row
}.

(** [pd.DataFrame()]: no columns, no rows. *)
Definition empty_frame : DataFrame := mkDF [] [].

(** ** Exceptions *)

Inductive exn : Type :=
  | KeyError (label : string)
  | AttributeError
  | TypeError
  | ValueError
  | InvalidIndexError.

Inductive result (A : Type) : Type :=
  | Ok (a : A)
  | Raise (e : exn).
Arguments Ok {A} a.
Arguments Raise {A} e.

#[export] Instance result_ret : MRet result := fun A a => Ok a.
#[export] Instance result_bind : MBind result := fun A B f r =>
  match r with
  | Ok a => f a
  | Raise e => Raise e
  end.

(** Run [f] over a list, stopping at the first exception. *)
Fixpoint traverse {A B : Type} (f : A -> result B) (l : list A) : result (list B) :=
  match l with
  | [] => Ok []
  | x :: l' => y ← f x; ys ← traverse f l'; Ok (y :: ys)
  end.

(** ** Strings *)

(** [s.endswith(suf)]. *)
Definition endswith (s suf : string) : bool :=
  let n := String.length s in
  let k := String.length suf in
  (k <=? n)%nat && String.eqb (String.substring (n - k) k s) suf.

(** [s.startswith(pre)]. *)
Definition startswith (s pre : string) : bool := String.prefix pre s.

(** [pat] occurs somewhere in [s]. *)
Fixpoint has_substring (pat s : string) : bool :=
  String.prefix pat s ||
  match s with
  | EmptyString => false
  | String _ s' => has_substring pat s'
  end.

(** [re.search("2021|2022|2023", s)] finds a match. *)
Definition search_recent (s : string) : bool :=
  has_substring "2021" s || has_substring "2022" s || has_substring "2023" s.

(** [\d] on ASCII text.  A [string] is a sequence of 8-bit characters;
    a file name with a decimal digit outside ASCII, which the pattern
    of line 76 also matches, is not in the domain of [extract_year]. *)
Definition is_digit (a : ascii) : bool :=
  (48 <=? nat_of_ascii a)%nat && (nat_of_ascii a <=? 57)%nat.

(** The pattern [20\d{2}] matches at the head of [s]. *)
Definition year_here (s : string) : bool :=
  match s with
  | String "2"%char (String "0"%char (String d1 (String d2 _))) =>
      is_digit d1 && is_digit d2
  | _ => false
  end.

(** First match of [(20\d{2})] in [s], if any. *)
Fixpoint extract_year (s : string) : option string :=
  match s with
  | EmptyString => None
  | String _ s' =>
      if year_here s then Some (String.substring 0 4 s) else extract_year s'
  end.

(** ** Frame primitives *)

(** [c in df.columns]. *)
Definition has_col (df : DataFrame) (c : string) : bool :=
  existsb (String.eqb c) (columns df).

(** The cell of a row under a label; a row that lacks the label reads
    as missing. *)
Fixpoint cell (r : row) (c : string) : value :=
  match r with
  | [] => VNaN
  | (k, v) :: r' => if String.eqb k c then v else cell r' c
  end.

(** [df[c]] used as a Series.  An absent label raises [KeyError]; a
    label carried by several columns yields a frame, not a Series, and
    the operation that follows at the call site then raises [amb]. *)
Definition getitem (df : DataFrame) (c : string) (amb : exn) : result (list value) :=
  match List.filter (String.eqb c) (columns df) with
  | [] => Raise (KeyError c)
  | [_] => Ok (map (fun r => cell r c) (rows df))
  | _ => Raise amb
  end.

(** [df[mask]] for a boolean mask aligned with the rows. *)
Fixpoint boolean_index {A : Type} (mask : list bool) (l : list A) : list A :=
  match mask, l with
  | b :: mask', x :: l' =>
      if b then x :: boolean_index mask' l' else boolean_index mask' l'
  | _, _ => []
  end.

Definition select_rows (mask : list bool) (df : DataFrame) : DataFrame :=
  mkDF (columns df) (boolean_index mask (rows df)).

(** [df[labels]]: for each requested label, every column carrying it. *)
Definition project_labels (labels cols : list string) : list string :=
  flat_map (fun c => List.filter (String.eqb c) cols) labels.

Definition project_row (labels : list string) (r : row) : row :=
  flat_map (fun c => List.filter (fun kv => String.eqb c (fst kv)) r) labels.

Definition select_columns (labels : list string) (df : DataFrame) : result DataFrame :=
  match List.filter (fun c => negb (has_col df c)) labels with
  | [] =>
      Ok (mkDF (project_labels labels (columns df))
               (map (project_row labels) (rows df)))
  | c :: _ => Raise (KeyError c)
  end.

(** Write [v] under label [c] in one row: all cells with that label when
    the frame has it, a new last cell otherwise. *)
Definition set_cell (present : bool) (c : string) (v : value) (r : row) : row :=
  if present
  then map (fun kv => if String.eqb (fst kv) c then (fst kv, v) else kv) r
  else r ++ [(c, v)].

Definition set_labels (present : bool) (c : string) (cols : list string) : list string :=
  if present then cols else cols ++ [c].

(** [df[c] = v] for a scalar [v], broadcast over the rows. *)
Definition setitem_scalar (df : DataFrame) (c : string) (v : value) : DataFrame :=
  let present := has_col df c in
  mkDF (set_labels present c (columns df)) (map (set_cell present c v) (rows df)).

(** [df[c] = vals] for a column of values with the frame's own index. *)
Definition setitem_series (df : DataFrame) (c : string) (vals : list value) : result DataFrame :=
  if (length vals =? length (rows df))%nat then
    let present := has_col df c in
    Ok (mkDF (set_labels present c (columns df))
             (zip_with (fun r v => set_cell present c v r) (rows df) vals))
  else Raise ValueError.

(** [df.rename(columns={old: new})]. *)
Definition rename_label (old new c : string) : string :=
  if String.eqb c old then new else c.

Definition rename (old new : string) (df : DataFrame) : DataFrame :=
  mkDF (map (rename_label old new) (columns df))
       (map (map (fun kv => (rename_label old new (fst kv), snd kv))) (rows df)).

(** [df.reindex(columns=cols)] on one row: absent labels read as NaN. *)
Definition reindex (cols : list string) (r : row) : row :=
  map (fun c => (c, cell r c)) cols.

Definition add_labels (acc cols : list string) : list string :=
  acc ++ List.filter (fun c => negb (existsb (String.eqb c) acc)) cols.

(** Union of column indexes in order of first appearance ([sort=False]). *)
Definition union_labels (ls : list (list string)) : list string :=
  fold_left add_labels ls [].

(** [pd.concat(dfs, ignore_index=True)].  Frames with one and the same
    column index are stacked as they are.  Otherwise every frame is
    reindexed to the union of the labels, which pandas refuses for a
    frame with a repeated label.  Cells are copied as they are: pandas
    also brings each column to one dtype, turning an integer column into
    floats when the column is float or absent in another frame, and this
    leaves every number unchanged but an integer of magnitude above 2^53
    (see [float_exact]). *)
Definition concat (dfs : list DataFrame) : result DataFrame :=
  match dfs with
  | [] => Raise ValueError
  | df0 :: rest =>
      if forallb (fun df => bool_decide (columns df = columns df0)) rest then
        Ok (mkDF (columns df0) (flat_map rows dfs))
      else if forallb (fun df => bool_decide (NoDup (columns df))) dfs then
        let cols := union_labels (map columns dfs) in
        Ok (mkDF cols (flat_map (fun df => map (reindex cols) (rows df)) dfs))
      else Raise InvalidIndexError
  end.

(** ** Series operations *)

Definition is_str (v : value) : bool :=
  match v with
  | VStr _ => true
  | _ => false
  end.

(** [series.str]: the accessor is refused on a column that holds values
    but no string. *)
Definition str_accessor (col : list value) : result (list value) :=
  match col with
  | [] => Ok col
  | _ :: _ => if existsb is_str col then Ok col else Raise AttributeError
  end.

(** [.str.contains("2021|2022|2023")]: NaN ([None]) on a non-string. *)
Definition str_contains_recent (col : list value) : list (option bool) :=
  map (fun v => match v with
                | VStr s => Some (search_recent s)
                | _ => None
                end) col.

(** [.str.extract(r"(20\d{2})")]: NaN where nothing matches. *)
Definition extract_year_value (v : value) : value :=
  match v with
  | VStr s => match extract_year s with
              | Some y => VStr y
              | None => VNaN
              end
  | _ => VNaN
  end.

Definition str_extract_year (col : list value) : list value :=
  map extract_year_value col.

Definition in_range (lo hi : Q) (v : value) : bool :=
  match v with
  | VNum q => Qle_bool lo q && Qle_bool q hi
  | _ => false
  end.

(** [series.between(lo, hi)]: comparing a string with a number raises;
    a missing value compares false. *)
Definition between (lo hi : Q) (col : list value) : result (list bool) :=
  if existsb is_str col then Raise TypeError else Ok (map (in_range lo hi) col).

Definition equals_num (n : Q) (v : value) : bool :=
  match v with
  | VNum q => Qeq_bool q n
  | _ => false
  end.

(** [series == n]: false on strings and on missing values. *)
Definition series_eq (n : Q) (col : list value) : list bool :=
  map (equals_num n) col.

(** [m & b] where [m] may hold NaN: NaN counts as false. *)
Definition mask_and (m : list (option bool)) (b : list bool) : list bool :=
  zip_with (fun x y => default false x && y) m b.

(** [~m]: inverting a NaN raises. *)
Definition mask_not (m : list (option bool)) : result (list bool) :=
  traverse (fun x => match x with
                     | Some b => Ok (negb b)
                     | None => Raise TypeError
                     end) m.

(** ** Stage 2: the age filter *)

Definition filter_age (df : DataFrame) : result DataFrame :=
  src ← getitem df "source_file" AttributeError;
  src ← str_accessor src;
  let recent_mask := str_contains_recent src in
  age ← getitem df "AGE" AttributeError;
  young ← between 4 7 age;
  let subset_recent := select_rows (mask_and recent_mask young) df in
  not_recent ← mask_not recent_mask;
  age ← getitem df "AGE" AttributeError;
  old ← between 7 13 age;
  let subset_older := select_rows (zip_with andb not_recent old) df in
  concat [subset_recent; subset_older].

(** ** Stage 3: the column/value filter *)

Definition prefixes : list string :=
  ["ALC"; "ALD"; "UAD"; "AGE"; "FILEDATE"; "IRSEX"; "source_file"; "AL30"].

(** [col.startswith((...))] over the tuple of prefixes. *)
Definition has_prefix (col : string) : bool :=
  existsb (startswith col) prefixes.

Definition filter_cols (df : DataFrame) : result DataFrame :=
  let filtered_columns := List.filter has_prefix (columns df) in
  df_filtered ← select_columns filtered_columns df;
  src ← getitem df_filtered "source_file" AttributeError;
  src ← str_accessor src;
  df_filtered ← setitem_series df_filtered "year" (str_extract_year src);
  is1 ← getitem df_filtered "ALCEVER" ValueError;
  is2 ← getitem df_filtered "ALCEVER" ValueError;
  Ok (select_rows (zip_with orb (series_eq 1 is1) (series_eq 2 is2)) df_filtered).

(** ** Stage 1: the loader *)

(** [list(s)] for a Python set [s]: some enumeration of its elements. *)
Class SetOrder : Type := {
  set_to_list : gset string -> list string;
  set_to_list_perm : forall X, set_to_list X ≡ₚ elements X
}.

#[export] Instance elements_order : SetOrder :=
  {| set_to_list := elements; set_to_list_perm := fun X => reflexivity (elements X) |}.

(** What [pd.read_csv] does with one directory entry: a table, or an
    exception with its text. *)
Inductive read_result : Type :=
  | Parsed (df : DataFrame)
  | Failed (msg : string).

(** [os.listdir(directory)], each name with the outcome of reading it. *)
Definition directory : Type := list (string * read_result).

Definition age_column_candidates : list string := ["AGE2"; "AGE3"].

(** The alias loop: rename the first candidate present, then stop. *)
Fixpoint rename_first_alias (cands : list string) (df : DataFrame) : DataFrame :=
  match cands with
  | [] => df
  | age_col :: rest =>
      if has_col df age_col then rename age_col "AGE" df
      else rename_first_alias rest df
  end.

(** Tagging and alias renaming of one parsed file. *)
Definition harmonize (file : string) (df : DataFrame) : DataFrame :=
  rename_first_alias age_column_candidates
    (setitem_scalar df "source_file" (VStr file)).

Definition selected (file : string) : bool :=
  endswith file ".txt" || endswith file ".tsv".

(** The loop state: console output so far, [dfs], [common_cols]. *)
Record loader_state : Type := mkLS {
  diagnostics : list string;
  dfs : list DataFrame;
  common_cols : option (gset string)
}.

Definition loader_step (st : loader_state) (entry : string * read_result) : loader_state :=
  let (file, rd) := entry in
  if selected file then
    match rd with
    | Parsed df0 =>
        let df := harmonize file df0 in
        let cols : gset string := list_to_set (columns df) ∖ {["source_file"]} in
        mkLS (diagnostics st) (dfs st ++ [df])
             (Some (match common_cols st with
                    | None => cols
                    | Some cc => cc ∩ cols
                    end))
    | Failed msg =>
        mkLS (diagnostics st ++ ["Failed to read " +:+ file +:+ ": " +:+ msg])
             (dfs st) (common_cols st)
    end
  else st.

Definition no_compatible_files : string := "No compatible files found.".

(** Lines 51-53: project every frame on the final columns it has, and
    stack the projections. *)
Definition project_and_concat (final_cols : list string) (frames : list DataFrame)
  : result DataFrame :=
  final_dfs ← traverse
                (fun df => select_columns (List.filter (has_col df) final_cols) df)
                frames;
  concat final_dfs.

(** The loader returns what it printed and its value or exception. *)
Definition combine_common_columns_with_age `{SetOrder} (dir : directory)
  : list string * result DataFrame :=
  let st := fold_left loader_step dir (mkLS [] [] None) in
  match dfs st, common_cols st with
  | _ :: _, Some cc =>
      if decide (cc = ∅)
      then (diagnostics st ++ [no_compatible_files], Ok empty_frame)
      else
        let final_cols := set_to_list (cc ∪ {["AGE"; "source_file"]}) in
        (diagnostics st, project_and_concat final_cols (dfs st))
  | _, _ => (diagnostics st ++ [no_compatible_files], Ok empty_frame)
  end.

(** ** Stage 4: the orchestrator, on the listing of [../data/raw] *)

Definition preprocess_data `{SetOrder} (raw : directory) : list string * result DataFrame :=
  let (out, r) := combine_common_columns_with_age raw in
  (out, df ← r; df ← filter_age df; filter_cols df).

(** ** The round-trip scenario *)

Definition file_2022 : DataFrame :=
  mkDF ["AGE2"; "ALCEVER"; "IRSEX"]
       [[("AGE2", VNum 5); ("ALCEVER", VNum 1); ("IRSEX", VNum 2)]].

Definition file_old : DataFrame :=
  mkDF ["AGE3"; "ALCEVER"; "IRSEX"]
       [[("AGE3", VNum 9); ("ALCEVER", VNum 2); ("IRSEX", VNum 1)]].

Definition scenario : directory :=
  [("2022.txt", Parsed file_2022); ("old.txt", Parsed file_old)].

Definition scenario_reversed : directory :=
  [("old.txt", Parsed file_old); ("2022.txt", Parsed file_2022)].

(** ** Vocabulary of the statements *)

(** The frame has exactly one column labelled [c]. *)
Definition has_unique (df : DataFrame) (c : string) : Prop :=
  List.filter (String.eqb c) (columns df) = [c].

(** Every row carries exactly the frame's labels, in order. *)
Definition well_formed (df : DataFrame) : Prop :=
  Forall (fun r => map fst r = columns df) (rows df).

(** The selected entries that were read, with their file names. *)
Definition parsed_entries (dir : directory) : list (string * DataFrame) :=
  flat_map (fun entry =>
              match entry with
              | (file, Parsed df) => if selected file then [(file, df)] else []
              | (_, Failed _) => []
              end) dir.

(** The tagged and renamed frames of the files that were read. *)
Definition parsed_frames (dir : directory) : list DataFrame :=
  map (fun e => harmonize (fst e) (snd e)) (parsed_entries dir).

(** The per-file diagnostics, in listing order. *)
Definition failure_messages (dir : directory) : list string :=
  flat_map (fun entry =>
              match entry with
              | (file, Failed msg) =>
                  if selected file
                  then ["Failed to read " +:+ file +:+ ": " +:+ msg]
                  else []
              | (_, Parsed _) => []
              end) dir.

(** The directory without the entries that cannot be read. *)
Definition readable_only (dir : directory) : directory :=
  List.filter (fun entry => match snd entry with
                            | Parsed _ => true
                            | Failed _ => false
                            end) dir.

(** The labels a frame contributes to the running intersection. *)
Definition label_set (df : DataFrame) : gset string :=
  list_to_set (columns df) ∖ {["source_file"]}.

Definition intersect_step (acc : option (gset string)) (df : DataFrame)
  : option (gset string) :=
  Some (match acc with
        | None => label_set df
        | Some cc => cc ∩ label_set df
        end).

(** Some label other than the provenance label is in every frame. *)
Definition share_a_column (frames : list DataFrame) : Prop :=
  exists c, c <> "source_file" /\ forall df, In df frames -> In c (columns df).

(** Row predicates of the two filters. *)
Definition is_recent (r : row) : bool :=
  match cell r "source_file" with
  | VStr s => search_recent s
  | _ => false
  end.

Definition keep_recent (r : row) : bool :=
  is_recent r && in_range 4 7 (cell r "AGE").

Definition keep_older (r : row) : bool :=
  negb (is_recent r) && in_range 7 13 (cell r "AGE").

Definition alcever_kept (r : row) : bool :=
  equals_num 1 (cell r "ALCEVER") || equals_num 2 (cell r "ALCEVER").

(** The row the column/value filter makes of an input row. *)
Definition output_row (labels : list string) (r : row) : row :=
  project_row labels r ++ [("year", extract_year_value (cell r "source_file"))].

(** [pat] occurs in [s], as a proposition. *)
Definition occurs_in (pat s : string) : Prop :=
  exists pre post, s = pre +:+ pat +:+ post.

#[export] Instance Q_eq_dec : EqDecision Q.
Proof. solve_decision. Defined.

#[export] Instance value_eq_dec : EqDecision value.
Proof. solve_decision. Defined.

(** What the age filter returns when it returns. *)
Definition age_filtered (df : DataFrame) : DataFrame :=
  mkDF (columns df)
       (List.filter keep_recent (rows df) ++ List.filter keep_older (rows df)).

(** The preconditions under which the age filter returns. *)
Definition age_filter_ready (df : DataFrame) : Prop :=
  has_unique df "source_file" /\ has_unique df "AGE" /\
  Forall (fun r => is_str (cell r "source_file") = true) (rows df) /\
  Forall (fun r => is_str (cell r "AGE") = false) (rows df).

(** The file name marks the recent cohort. *)
Definition recent_name (s : string) : Prop :=
  occurs_in "2021" s \/ occurs_in "2022" s \/ occurs_in "2023" s.

(** The age lies in the inclusive range of the row's cohort. *)
Definition in_cohort_range (r : row) : Prop :=
  exists s q,
    cell r "source_file" = VStr s /\ cell r "AGE" = VNum q /\
    ((recent_name s /\ (4 <= q)%Q /\ (q <= 7)%Q) \/
     (~ recent_name s /\ (7 <= q)%Q /\ (q <= 13)%Q)).

(** A table in which one file's age column was read as text. *)
Definition frame_string_age : DataFrame :=
  mkDF ["source_file"; "AGE"]
       [[("source_file", VStr "a.txt"); ("AGE", VNum 9)];
        [("source_file", VStr "b.txt"); ("AGE", VStr "unknown")]].

(** A table with both cohorts, a missing age and ages out of range. *)
Definition frame_mixed_ages : DataFrame :=
  mkDF ["source_file"; "AGE"; "ALCEVER"]
       [[("source_file", VStr "old.txt"); ("AGE", VNum 9); ("ALCEVER", VNum 1)];
        [("source_file", VStr "NSDUH_2022.tsv"); ("AGE", VNum 5); ("ALCEVER", VNum 2)];
        [("source_file", VStr "old.txt"); ("AGE", VNaN); ("ALCEVER", VNum 1)];
        [("source_file", VStr "NSDUH_2022.tsv"); ("AGE", VNum 9); ("ALCEVER", VNum 1)];
        [("source_file", VStr "old.txt"); ("AGE", VNum 7); ("ALCEVER", VNum 3)]].

(** The row has a cell labelled [c]. *)
Definition has_key (r : row) (c : string) : bool :=
  existsb (fun kv => String.eqb (fst kv) c) r.

(** What the column/value filter returns when it returns. *)
Definition cols_filtered (df : DataFrame) : DataFrame :=
  let labels := List.filter has_prefix (columns df) in
  mkDF (project_labels labels (columns df) ++ ["year"])
       (map (output_row labels) (List.filter alcever_kept (rows df))).

(** The ALCEVER cell holds the number 1 or the number 2. *)
Definition alcever_is_1_or_2 (r : row) : Prop :=
  exists q, cell r "ALCEVER" = VNum q /\ (q == 1 \/ q == 2)%Q.

(** A table with every kind of ALCEVER value. *)
Definition frame_alcever_codes : DataFrame :=
  mkDF ["QUESTID"; "ALCEVER"; "source_file"]
       [[("QUESTID", VNum 11); ("ALCEVER", VNum 1); ("source_file", VStr "NSDUH_2022.tsv")];
        [("QUESTID", VNum 12); ("ALCEVER", VNum 3); ("source_file", VStr "NSDUH_2022.tsv")];
        [("QUESTID", VNum 13); ("ALCEVER", VNaN); ("source_file", VStr "old.txt")];
        [("QUESTID", VNum 14); ("ALCEVER", VNum 2); ("source_file", VStr "old.txt")];
        [("QUESTID", VNum 15); ("ALCEVER", VStr "1"); ("source_file", VStr "old.txt")]].

(** The preconditions under which the column/value filter returns. *)
Definition cols_filter_ready (df : DataFrame) : Prop :=
  has_unique df "source_file" /\ has_unique df "ALCEVER" /\
  Forall (fun r => is_str (cell r "source_file") = true) (rows df).

(** The label begins with one of the eight fixed prefixes. *)
Definition starts_with_a_prefix (c : string) : Prop :=
  exists p t, In p prefixes /\ c = p +:+ t.

(** A listing whose readable files share no column: one has an age
    alias and [X], the other only [Y]; a third cannot be parsed and a
    fourth entry is not a data file. *)
Definition directory_without_common_columns : directory :=
  [("a.txt", Parsed (mkDF ["AGE2"; "X"] [[("AGE2", VNum 8); ("X", VNum 1)]]));
   ("broken.txt", Failed "Error tokenizing data");
   ("b.tsv", Parsed (mkDF ["Y"] [[("Y", VNum 2)]]));
   ("README.md", Failed "not read")].

(** One frame projected on the final columns it has (line 51). *)
Definition projected (final_cols : list string) (df : DataFrame) : DataFrame :=
  let labels := List.filter (has_col df) final_cols in
  mkDF (project_labels labels (columns df)) (map (project_row labels) (rows df)).

(** The scenario's two files with an unparsable file between them. *)
Definition directory_with_broken_file : directory :=
  [("2022.txt", Parsed file_2022);
   ("broken.txt", Failed "Error tokenizing data");
   ("old.txt", Parsed file_old)].

(** The provenance values the loader writes: each file's name, once per
    row of the file, in listing order. *)
Definition provenance_tags (dir : directory) : list value :=
  flat_map (fun e => repeat (VStr (fst e)) (length (rows (snd e))))
           (parsed_entries dir).

(** The columns a file of the scenario has once tagged and renamed. *)
Definition scenario_columns : list string :=
  ["AGE"; "ALCEVER"; "IRSEX"; "source_file"].

(** The cells expected of one output row of the scenario. *)
Definition expected_row (r : row) (age alcever irsex : Q) (file : string)
    (year : value) : Prop :=
  cell r "AGE" = VNum age /\ cell r "ALCEVER" = VNum alcever /\
  cell r "IRSEX" = VNum irsex /\ cell r "source_file" = VStr file /\
  cell r "year" = year.

(** What the scenario asks of a run: [loaded] is what the loader
    returned, [final] what the orchestrator returned. *)
Definition round_trip_outcome (loaded final : list string * result DataFrame) : Prop :=
  exists L A out r1 r2,
    loaded = ([], Ok L) /\
    columns L ≡ₚ scenario_columns /\ length (rows L) = 2 /\
    filter_age L = Ok A /\ length (rows A) = 2 /\
    filter_cols A = Ok out /\
    final = ([], Ok out) /\
    columns out ≡ₚ scenario_columns ++ ["year"] /\
    rows out = [r1; r2] /\
    expected_row r1 5 1 2 "2022.txt" (VStr "2022") /\
    expected_row r2 9 2 1 "old.txt" VNaN.

(** The ten digits of the pattern on ASCII text. *)
Definition ascii_digits : list ascii :=
  ["0"; "1"; "2"; "3"; "4"; "5"; "6"; "7"; "8"; "9"]%char.

(** Every character of [s] is an ASCII character. *)
Definition is_ascii_text (s : string) : bool :=
  forallb (fun a => (nat_of_ascii a <? 128)%nat) (list_ascii_of_string s).

(** [rest] begins with the four characters [y]: 2, 0 and two of the
    digits 0 to 9. *)
Definition year_at (rest y : string) : Prop :=
  exists d1 d2 post,
    rest = String "2" (String "0" (String d1 (String d2 post))) /\
    In d1 ascii_digits /\ In d2 ascii_digits /\
    y = String "2" (String "0" (String d1 (String d2 ""))).

(** [v] is the leftmost 20dd of [file], or missing when there is none. *)
Definition first_year (file : string) (v : value) : Prop :=
  (exists pre rest y,
     file = pre +:+ rest /\ year_at rest y /\ v = VStr y /\
     forall pre1 pre2, pre = pre1 +:+ pre2 -> pre2 <> "" ->
                       forall y', ~ year_at (pre2 +:+ rest) y') \/
  (v = VNaN /\ forall pre rest y, file = pre +:+ rest -> ~ year_at rest y).

(** [c] is a label of the harmonized table built from [frames]: a label
    of every frame, or AGE or [source_file] when some frame has it. *)
Definition harmonized_label (frames : list DataFrame) (c : string) : Prop :=
  (forall df, In df frames -> In c (columns df)) \/
  (c = "AGE" /\ exists df, In df frames /\ In "AGE" (columns df)) \/
  (c = "source_file" /\ exists df, In df frames /\ In "source_file" (columns df)).

(** The entries of a listing whose names end in [.txt] or [.tsv]. *)
Definition selected_only (dir : directory) : directory :=
  List.filter (fun entry => selected (fst entry)) dir.

(** Some label is in every file as it was read, before the loader tags
    it and renames its age alias. *)
Definition files_share_a_column (dir : directory) : Prop :=
  exists c, forall e, In e (parsed_entries dir) -> In c (columns (snd e)).

(** Two files that share no label as read: each has its own age alias
    and one column of its own. *)
Definition file_with_age2 : DataFrame :=
  mkDF ["AGE2"; "X"] [[("AGE2", VNum 5); ("X", VNum 1)]].

Definition file_with_age3 : DataFrame :=
  mkDF ["AGE3"; "Y"] [[("AGE3", VNum 9); ("Y", VNum 2)]].

Definition directory_of_age_aliases : directory :=
  [("a.txt", Parsed file_with_age2); ("b.txt", Parsed file_with_age3)].

(** The value is not an integer of magnitude above 2^53, so a float64
    holds it exactly.  The concatenation of line 53 turns an integer
    column into floats when the column is float or absent in another
    frame; such a value is the same before and after. *)
Definition float_exact (v : value) : Prop :=
  match v with
  | VNum q => forall z : Z, (q == inject_Z z)%Q -> (Z.abs z <= 2 ^ 53)%Z
  | _ => True
  end.

(** The row passes the age test of its cohort and the ALCEVER test. *)
Definition passes_filters (r : row) : bool :=
  (keep_recent r || keep_older r) && alcever_kept r.

(** What the filters need of the files read: rows that carry the file's
    labels, distinct labels and an ALCEVER column in every file once
    tagged and renamed, no age read as text, and an age column in one
    file at least. *)
Definition pipeline_ready (dir : directory) : Prop :=
  Forall (fun e => well_formed (snd e)) (parsed_entries dir) /\
  Forall (fun df => NoDup (columns df) /\ In "ALCEVER" (columns df) /\
                    Forall (fun r => is_str (cell r "AGE") = false) (rows df))
         (parsed_frames dir) /\
  Exists (fun df => In "AGE" (columns df)) (parsed_frames dir).

(** * Properties *)

(** ** Lists, masks and the error monad *)

Lemma boolean_index_map {A : Type} (p : A -> bool) (l : list A) :
  boolean_index (map p l) l = List.filter p l.
Proof.
  induction l as [|x l IH]; simpl; [reflexivity|].
  rewrite IH. reflexivity.
Qed.

Lemma zip_with_map_map {A B C D : Type} (f : B -> C -> D) (g : A -> B) (h : A -> C)
    (l : list A) :
  zip_with f (map g l) (map h l) = map (fun x => f (g x) (h x)) l.
Proof.
  induction l as [|x l IH]; simpl; [reflexivity|].
  rewrite IH. reflexivity.
Qed.

Lemma filter_submseteq_disjoint {A : Type} (p q : A -> bool) (l : list A) :
  (forall x, p x = true -> q x = false) ->
  List.filter p l ++ List.filter q l ⊆+ l.
Proof.
  intros Hpq. induction l as [|x l IH]; simpl; [constructor|].
  destruct (p x) eqn:Hp.
  - rewrite (Hpq x Hp). simpl. by apply submseteq_skip.
  - destruct (q x).
    + rewrite <- Permutation_middle. by apply submseteq_skip.
    + by apply submseteq_cons.
Qed.

Lemma filter_sublist {A : Type} (p : A -> bool) (l : list A) :
  sublist (List.filter p l) l.
Proof.
  induction l as [|x l IH]; simpl; [constructor|].
  destruct (p x); by constructor.
Qed.

Lemma existsb_false_Forall {A : Type} (p : A -> bool) (l : list A) :
  existsb p l = false <-> Forall (fun x => p x = false) l.
Proof.
  induction l as [|x l IH]; simpl.
  - split; [constructor | reflexivity].
  - rewrite orb_false_iff, IH. split.
    + intros [Hx Hl]. by constructor.
    + by inversion 1.
Qed.

Lemma concat_pair (cols : list string) (r1 r2 : list row) :
  concat [mkDF cols r1; mkDF cols r2] = Ok (mkDF cols (r1 ++ r2)).
Proof.
  unfold concat. simpl.
  rewrite bool_decide_eq_true_2 by reflexivity. simpl.
  by rewrite app_nil_r.
Qed.

(** ** Series access *)

Lemma filter_eqb_repeat (c : string) (cols : list string) :
  List.filter (String.eqb c) cols = repeat c (length (List.filter (String.eqb c) cols)).
Proof.
  induction cols as [|x cols IH]; simpl; [reflexivity|].
  destruct (String.eqb_spec c x) as [->|_]; simpl; [|assumption].
  by rewrite <- IH.
Qed.

Lemma getitem_unique (df : DataFrame) (c : string) (amb : exn) :
  has_unique df c ->
  getitem df c amb = Ok (map (fun r => cell r c) (rows df)).
Proof. unfold has_unique, getitem. by intros ->. Qed.

Lemma getitem_inv (df : DataFrame) (c : string) (amb : exn) (col : list value) :
  getitem df c amb = Ok col ->
  has_unique df c /\ col = map (fun r => cell r c) (rows df).
Proof.
  unfold getitem, has_unique. intros H.
  rewrite (filter_eqb_repeat c (columns df)) in *.
  destruct (length (List.filter (String.eqb c) (columns df))) as [|[|n]];
    simpl in *; try discriminate.
  split; [reflexivity | congruence].
Qed.

Lemma str_accessor_inv (col col' : list value) :
  str_accessor col = Ok col' -> col' = col.
Proof.
  unfold str_accessor. destruct col; [congruence|].
  destruct (existsb _ _); [congruence | discriminate].
Qed.

Lemma str_accessor_strings (col : list value) :
  Forall (fun v => is_str v = true) col -> str_accessor col = Ok col.
Proof.
  intros H. destruct col as [|v col]; [reflexivity|].
  inversion H as [|? ? Hv _]; subst. unfold str_accessor. simpl. by rewrite Hv.
Qed.

Lemma between_inv (lo hi : Q) (col : list value) (m : list bool) :
  between lo hi col = Ok m ->
  Forall (fun v => is_str v = false) col /\ m = map (in_range lo hi) col.
Proof.
  unfold between. destruct (existsb is_str col) eqn:E; [discriminate|].
  intros [= <-]. split; [by apply existsb_false_Forall | reflexivity].
Qed.

Lemma between_numeric (lo hi : Q) (col : list value) :
  Forall (fun v => is_str v = false) col ->
  between lo hi col = Ok (map (in_range lo hi) col).
Proof.
  intros H. unfold between. apply existsb_false_Forall in H. by rewrite H.
Qed.

Lemma between_string (lo hi : Q) (col : list value) :
  Exists (fun v => is_str v = true) col -> between lo hi col = Raise TypeError.
Proof.
  intros H. unfold between.
  destruct (existsb is_str col) eqn:E; [reflexivity|].
  apply existsb_false_Forall in E. apply Exists_exists in H as [v [Hin Hv]].
  rewrite Forall_forall in E. specialize (E v Hin). congruence.
Qed.

Lemma mask_not_inv (col : list value) (nm : list bool) :
  mask_not (str_contains_recent col) = Ok nm ->
  Forall (fun v => is_str v = true) col.
Proof.
  revert nm. induction col as [|v col IH]; intros nm H; [constructor|].
  unfold mask_not in *. simpl in H.
  destruct v; simpl in H; try discriminate.
  destruct (traverse _ (str_contains_recent col)) eqn:E; simpl in H; [|discriminate].
  constructor; [reflexivity | by eapply IH].
Qed.

Lemma mask_not_rows (l : list row) :
  Forall (fun r => is_str (cell r "source_file") = true) l ->
  mask_not (str_contains_recent (map (fun r => cell r "source_file") l))
  = Ok (map (fun r => negb (is_recent r)) l).
Proof.
  induction 1 as [|r l Hr _ IH]; [reflexivity|].
  unfold mask_not in *. simpl. unfold is_recent at 1.
  destruct (cell r "source_file"); try discriminate. simpl.
  rewrite IH. reflexivity.
Qed.

Lemma mask_and_rows (l : list row) (g : row -> bool) :
  Forall (fun r => is_str (cell r "source_file") = true) l ->
  mask_and (str_contains_recent (map (fun r => cell r "source_file") l)) (map g l)
  = map (fun r => is_recent r && g r) l.
Proof.
  induction 1 as [|r l Hr _ IH]; [reflexivity|].
  unfold mask_and in *. simpl. rewrite IH. unfold is_recent at 2.
  destruct (cell r "source_file"); try discriminate. reflexivity.
Qed.

(** ** The age filter *)

Lemma filter_age_total (df : DataFrame) :
  age_filter_ready df -> filter_age df = Ok (age_filtered df).
Proof.
  intros (Hsrc & Hage & Hstr & Hnum). unfold filter_age.
  rewrite (getitem_unique _ _ _ Hsrc). simpl.
  rewrite str_accessor_strings by (by apply List.Forall_map). simpl.
  rewrite (getitem_unique _ _ _ Hage). simpl.
  rewrite between_numeric by (by apply List.Forall_map). simpl.
  rewrite (mask_not_rows _ Hstr). simpl.
  rewrite between_numeric by (by apply List.Forall_map). simpl.
  unfold select_rows.
  rewrite !map_map, (mask_and_rows _ (fun r => in_range 4 7 (cell r "AGE")) Hstr).
  rewrite zip_with_map_map, !boolean_index_map.
  apply concat_pair.
Qed.

Lemma filter_age_inv (df out : DataFrame) :
  filter_age df = Ok out -> age_filter_ready df /\ out = age_filtered df.
Proof.
  intros H. assert (Hready : age_filter_ready df).
  { unfold filter_age in H.
    destruct (getitem df "source_file" _) as [src|] eqn:E1; [|discriminate].
    apply getitem_inv in E1 as [Hsrc ->]. simpl in H.
    destruct (str_accessor _) as [src'|] eqn:E2; [|discriminate].
    apply str_accessor_inv in E2 as ->. simpl in H.
    destruct (getitem df "AGE" _) as [age|] eqn:E3; [|discriminate].
    apply getitem_inv in E3 as [Hage ->]. simpl in H.
    destruct (between 4 7 _) as [young|] eqn:E4; [|discriminate].
    apply between_inv in E4 as [Hnum _]. simpl in H.
    destruct (mask_not _) as [nm|] eqn:E5; [|discriminate].
    apply mask_not_inv in E5.
    apply List.Forall_map in E5. apply List.Forall_map in Hnum.
    by repeat split. }
  split; [assumption|].
  rewrite (filter_age_total _ Hready) in H. congruence.
Qed.

Lemma keep_recent_older_disjoint (r : row) :
  keep_recent r = true -> keep_older r = false.
Proof.
  unfold keep_recent, keep_older. destruct (is_recent r); simpl; congruence.
Qed.

(** ** Prefixes and substrings *)

Lemma prefix_spec (p s : string) :
  String.prefix p s = true <-> exists t, s = p +:+ t.
Proof.
  revert s. induction p as [|a p IH]; intros s; simpl.
  - split; [intros _; by exists s | by destruct s].
  - destruct s as [|b s]; simpl.
    + split; [discriminate | intros [t Ht]; discriminate].
    + destruct (Ascii.ascii_dec a b) as [->|Hne].
      * rewrite IH. split; intros [t Ht]; exists t.
        -- simpl. by rewrite Ht.
        -- simpl in Ht. by injection Ht.
      * split; [discriminate | intros [t Ht]; simpl in Ht; by injection Ht].
Qed.

Lemma has_substring_spec (pat s : string) :
  has_substring pat s = true <-> occurs_in pat s.
Proof.
  unfold occurs_in. induction s as [|a s IH].
  - cbn [has_substring]. rewrite orb_false_r, prefix_spec. split.
    + intros [t Ht]. by exists "", t.
    + intros (pre & post & H). destruct pre; [by exists post|discriminate].
  - cbn [has_substring]. rewrite orb_true_iff, IH, prefix_spec. split.
    + intros [[t Ht] | (pre & post & H)].
      * by exists "", t.
      * exists (String a pre), post. simpl. by rewrite H.
    + intros (pre & post & H). destruct pre as [|b pre]; simpl in H.
      * left. by exists post.
      * right. exists pre, post. by injection H.
Qed.

Lemma search_recent_spec (s : string) :
  search_recent s = true <-> recent_name s.
Proof.
  unfold search_recent, recent_name.
  rewrite !orb_true_iff, !has_substring_spec. tauto.
Qed.

Lemma in_range_spec (lo hi : Q) (v : value) :
  in_range lo hi v = true <-> exists q, v = VNum q /\ (lo <= q)%Q /\ (q <= hi)%Q.
Proof.
  destruct v as [q| |]; simpl.
  - rewrite andb_true_iff, !Qle_bool_iff. split.
    + intros [H1 H2]. by exists q.
    + intros (q' & [= <-] & H1 & H2). by split.
  - split; [discriminate | intros (q & H & _); discriminate].
  - split; [discriminate | intros (q & H & _); discriminate].
Qed.

Lemma keep_in_cohort_range (r : row) :
  is_str (cell r "source_file") = true ->
  keep_recent r || keep_older r = true <-> in_cohort_range r.
Proof.
  intros Hstr. unfold keep_recent, keep_older, is_recent, in_cohort_range.
  destruct (cell r "source_file") as [|s|]; try discriminate. clear Hstr.
  destruct (search_recent s) eqn:Hs; simpl; rewrite ?orb_false_r, in_range_spec.
  - apply search_recent_spec in Hs. split.
    + intros (q & Hq & H1 & H2). exists s, q. by eauto 10.
    + intros (s' & q & [= <-] & Hq & [(_ & H1 & H2) | (Hn & _)]); [by exists q | done].
  - assert (Hn : ~ recent_name s) by (rewrite <- search_recent_spec; congruence).
    split.
    + intros (q & Hq & H1 & H2). exists s, q. by eauto 10.
    + intros (s' & q & [= <-] & Hq & [(Hy & _) | (_ & H1 & H2)]); [done | by exists q].
Qed.

Lemma in_age_filtered (df : DataFrame) (r : row) :
  In r (rows (age_filtered df)) <->
  In r (rows df) /\ keep_recent r || keep_older r = true.
Proof.
  unfold age_filtered. simpl.
  rewrite in_app_iff, !filter_In, orb_true_iff. tauto.
Qed.

Lemma filter_age_string_raises (df : DataFrame) :
  has_unique df "source_file" -> has_unique df "AGE" ->
  Forall (fun r => is_str (cell r "source_file") = true) (rows df) ->
  Exists (fun r => is_str (cell r "AGE") = true) (rows df) ->
  filter_age df = Raise TypeError.
Proof.
  intros Hsrc Hage Hstr Hbad. unfold filter_age.
  rewrite (getitem_unique _ _ _ Hsrc). simpl.
  rewrite str_accessor_strings by (by apply List.Forall_map). simpl.
  rewrite (getitem_unique _ _ _ Hage). simpl.
  rewrite (between_string 4 7); [reflexivity|].
  by apply List.Exists_map.
Qed.




(** C10.  The age filter only drops rows: when it returns (and it does
    on every table that meets its preconditions), the columns are those
    of the input, the output rows are input rows, none altered or
    repeated, and they are the kept rows of the recent cohort followed
    by the kept rows of the other cohort, each in input order. *)
Theorem filter_age_only_drops_rows (df : DataFrame) :
  (age_filter_ready df -> exists out, filter_age df = Ok out) /\
  (forall out, filter_age df = Ok out ->
     columns out = columns df /\
     rows out ⊆+ rows df /\
     (forall r, In r (rows out) -> In r (rows df)) /\
     exists recent older,
       rows out = recent ++ older /\
       sublist recent (rows df) /\ sublist older (rows df) /\
       Forall (fun r => is_recent r = true) recent /\
       Forall (fun r => is_recent r = false) older).
Proof.
  split.
  - intros Hready. exists (age_filtered df). by apply filter_age_total.
  - intros out H. apply filter_age_inv in H as [_ ->].
    split; [reflexivity|]. split.
    { apply filter_submseteq_disjoint, keep_recent_older_disjoint. }
    split.
    { intros r Hin. by apply in_age_filtered in Hin as [Hin _]. }
    exists (List.filter keep_recent (rows df)), (List.filter keep_older (rows df)).
    split; [reflexivity|]. split; [apply filter_sublist|].
    split; [apply filter_sublist|]. split.
    + apply Forall_forall. intros r Hr. apply list_elem_of_In, filter_In in Hr as [_ Hr].
      unfold keep_recent in Hr. by apply andb_true_iff in Hr as [Hr _].
    + apply Forall_forall. intros r Hr. apply list_elem_of_In, filter_In in Hr as [_ Hr].
      unfold keep_older in Hr. apply andb_true_iff in Hr as [Hr _].
      by apply negb_true_iff in Hr.
Qed.

Lemma filter_age_only_drops_rows_witness :
  exists out, filter_age frame_mixed_ages = Ok out /\
    columns out = columns frame_mixed_ages /\
    rows out ⊆+ rows frame_mixed_ages.
Proof.
  destruct (filter_age_only_drops_rows frame_mixed_ages) as [Htotal Hframe].
  destruct Htotal as [out Hout].
  { repeat split; repeat constructor. }
  exists out. split; [assumption|].
  destruct (Hframe out Hout) as (Hc & Hr & _). by split.
Defined.

(** ** Cells under projection *)

Lemma cell_no_key (r : row) (c : string) :
  has_key r c = false -> cell r c = VNaN.
Proof.
  induction r as [|[k v] r IH]; simpl; [reflexivity|].
  destruct (String.eqb k c); simpl; [discriminate | exact IH].
Qed.

Lemma cell_filter_app (l c : string) (r rest : row) :
  cell (List.filter (fun kv => String.eqb l (fst kv)) r ++ rest) c
  = if String.eqb l c
    then (if has_key r c then cell r c else cell rest c)
    else cell rest c.
Proof.
  induction r as [|[k v] r IH]; simpl.
  - by destruct (String.eqb l c).
  - destruct (String.eqb_spec l k) as [->|Hlk]; simpl.
    + destruct (String.eqb_spec k c) as [->|Hkc]; simpl; [reflexivity|].
      rewrite IH. by destruct (String.eqb_spec k c).
    + rewrite IH. destruct (String.eqb_spec l c) as [->|Hlc]; [|reflexivity].
      by destruct (String.eqb_spec k c) as [->|Hkc].
Qed.

Lemma cell_project_row_no_key (labels : list string) (r : row) (c : string) :
  has_key r c = false -> cell (project_row labels r) c = VNaN.
Proof.
  intros Hk. induction labels as [|l labels IH]; [reflexivity|].
  unfold project_row in *. simpl. rewrite cell_filter_app, Hk, IH.
  by destruct (String.eqb l c).
Qed.

Lemma cell_project_row (labels : list string) (r : row) (c : string) :
  In c labels -> cell (project_row labels r) c = cell r c.
Proof.
  induction labels as [|l labels IH]; [intros []|].
  intros Hin. change (project_row (l :: labels) r)
    with (List.filter (fun kv => String.eqb l (fst kv)) r ++ project_row labels r).
  rewrite cell_filter_app.
  destruct (String.eqb_spec l c) as [->|Hlc].
  - destruct (has_key r c) eqn:Hk; [reflexivity|].
    by rewrite cell_project_row_no_key, cell_no_key.
  - destruct Hin as [->|Hin]; [done | by apply IH].
Qed.

Lemma cell_project_row_absent (labels : list string) (r : row) (c : string) :
  ~ In c labels -> cell (project_row labels r) c = VNaN.
Proof.
  induction labels as [|l labels IH]; [reflexivity|].
  intros Hin. change (project_row (l :: labels) r)
    with (List.filter (fun kv => String.eqb l (fst kv)) r ++ project_row labels r).
  rewrite cell_filter_app.
  destruct (String.eqb_spec l c) as [->|Hlc].
  - exfalso. apply Hin. by left.
  - apply IH. intros H. apply Hin. by right.
Qed.

Lemma cell_snoc_ne (r : row) (k c : string) (v : value) :
  k <> c -> cell (r ++ [(k, v)]) c = cell r c.
Proof.
  intros Hne. induction r as [|[k' v'] r IH]; simpl.
  - by destruct (String.eqb_spec k c).
  - by rewrite IH.
Qed.

Lemma in_project_labels (labels cols : list string) (c : string) :
  In c (project_labels labels cols) <-> In c labels /\ In c cols.
Proof.
  unfold project_labels. rewrite in_flat_map. split.
  - intros (l & Hl & Hc). apply filter_In in Hc as [Hc Heq].
    apply String.eqb_eq in Heq as ->. by split.
  - intros [Hl Hc]. exists c. split; [assumption|].
    apply filter_In. split; [assumption | apply String.eqb_refl].
Qed.

Lemma has_col_In (df : DataFrame) (c : string) :
  has_col df c = true <-> In c (columns df).
Proof.
  unfold has_col. rewrite existsb_exists. split.
  - intros (x & Hx & Heq). by apply String.eqb_eq in Heq as ->.
  - intros H. exists c. split; [assumption | apply String.eqb_refl].
Qed.

Lemma select_columns_present (labels : list string) (df : DataFrame) :
  (forall c, In c labels -> In c (columns df)) ->
  select_columns labels df
  = Ok (mkDF (project_labels labels (columns df))
             (map (project_row labels) (rows df))).
Proof.
  intros Hsub. unfold select_columns.
  assert (E : List.filter (fun c => negb (has_col df c)) labels = []).
  { induction labels as [|l labels IH]; [reflexivity|]. simpl.
    assert (Hl : has_col df l = true) by (apply has_col_In, Hsub; by left).
    rewrite Hl. simpl. apply IH. intros c Hc. apply Hsub. by right. }
  by rewrite E.
Qed.

Lemma has_unique_In (df : DataFrame) (c : string) :
  has_unique df c -> In c (columns df).
Proof.
  unfold has_unique. intros H.
  assert (Hin : In c (List.filter (String.eqb c) (columns df))) by (rewrite H; by left).
  by apply filter_In in Hin as [Hin _].
Qed.

(** ** The column/value filter *)

Lemma filter_map_comm {A B : Type} (p : B -> bool) (f : A -> B) (l : list A) :
  List.filter p (map f l) = map f (List.filter (fun x => p (f x)) l).
Proof.
  induction l as [|x l IH]; simpl; [reflexivity|].
  destruct (p (f x)); simpl; by rewrite IH.
Qed.

Lemma year_has_no_prefix (labels cols : list string) :
  ~ In "year" (project_labels (List.filter has_prefix labels) cols).
Proof.
  intros H. apply in_project_labels in H as [H _].
  apply filter_In in H as [_ H]. discriminate.
Qed.

Lemma with_year_rows (labels : list string) (l : list row) :
  In "source_file" labels ->
  zip_with (fun r v => set_cell false "year" v r)
           (map (project_row labels) l)
           (str_extract_year
              (map (fun r => cell r "source_file") (map (project_row labels) l)))
  = map (output_row labels) l.
Proof.
  intros Hsf. unfold str_extract_year. rewrite !map_map, zip_with_map_map.
  apply map_ext. intros r. unfold set_cell, output_row.
  by rewrite cell_project_row.
Qed.

Lemma alcever_kept_output_row (labels : list string) (r : row) :
  In "ALCEVER" labels -> alcever_kept (output_row labels r) = alcever_kept r.
Proof.
  intros Hin. unfold alcever_kept, output_row.
  by rewrite cell_snoc_ne, cell_project_row.
Qed.

Lemma alcever_mask_rows (labels : list string) (l : list row) :
  In "ALCEVER" labels ->
  boolean_index
    (zip_with orb
       (series_eq 1 (map (fun r => cell r "ALCEVER") (map (output_row labels) l)))
       (series_eq 2 (map (fun r => cell r "ALCEVER") (map (output_row labels) l))))
    (map (output_row labels) l)
  = map (output_row labels) (List.filter alcever_kept l).
Proof.
  intros Hin. unfold series_eq. rewrite !map_map, zip_with_map_map.
  change (map (fun x => equals_num 1 (cell (output_row labels x) "ALCEVER")
                        || equals_num 2 (cell (output_row labels x) "ALCEVER")) l)
    with (map (fun x => alcever_kept (output_row labels x)) l).
  rewrite <- (map_map (output_row labels) alcever_kept), boolean_index_map.
  rewrite filter_map_comm. f_equal. apply filter_ext.
  intros r. by apply alcever_kept_output_row.
Qed.

Lemma setitem_year (labels cols : list string) (l : list row) (vals : list value) :
  length vals = length l ->
  setitem_series (mkDF (project_labels (List.filter has_prefix labels) cols) l) "year" vals
  = Ok (mkDF (project_labels (List.filter has_prefix labels) cols ++ ["year"])
             (zip_with (fun r v => set_cell false "year" v r) l vals)).
Proof.
  intros Hlen. unfold setitem_series. simpl. rewrite Hlen, Nat.eqb_refl.
  destruct (has_col _ "year") eqn:E; [|reflexivity].
  apply has_col_In in E. simpl in E. by apply year_has_no_prefix in E.
Qed.

Lemma filter_cols_inv (df out : DataFrame) :
  filter_cols df = Ok out ->
  In "source_file" (columns df) /\ In "ALCEVER" (columns df) /\
  out = cols_filtered df.
Proof.
  unfold filter_cols. set (labels := List.filter has_prefix (columns df)).
  rewrite select_columns_present
    by (intros c Hc; by apply filter_In in Hc as [Hc _]).
  simpl. intros H.
  destruct (getitem _ "source_file" _) as [src|] eqn:E1; [|discriminate].
  apply getitem_inv in E1 as [Hsrc ->]. simpl in H.
  apply has_unique_In, in_project_labels in Hsrc as [Hsrc Hsrc'].
  destruct (str_accessor _) as [src'|] eqn:E2; [|discriminate].
  apply str_accessor_inv in E2 as ->. simpl in H.
  unfold labels in H. rewrite setitem_year in H
    by (unfold str_extract_year; by rewrite !length_map).
  fold labels in H. simpl in H.
  destruct (getitem _ "ALCEVER" _) as [alc|] eqn:E3; [|discriminate].
  apply getitem_inv in E3 as [Halc ->]. simpl in H.
  apply has_unique_In in Halc. simpl in Halc.
  apply in_app_iff in Halc as [Halc | [Halc | []]]; [|discriminate].
  apply in_project_labels in Halc as [Halc Halc'].
  injection H as <-. repeat split; try assumption.
  unfold select_rows, cols_filtered. simpl. fold labels.
  by rewrite with_year_rows, alcever_mask_rows.
Qed.

Lemma filter_nil_iff {A : Type} (p : A -> bool) (l : list A) :
  List.filter p l = [] <-> forall x, In x l -> p x = false.
Proof.
  induction l as [|x l IH]; simpl.
  - split; [intros _ ? [] | reflexivity].
  - destruct (p x) eqn:Hp.
    + split; [discriminate|]. intros H. specialize (H x (or_introl eq_refl)). congruence.
    + rewrite IH. split.
      * intros H y [<-|Hy]; [assumption | by apply H].
      * intros H y Hy. apply H. by right.
Qed.

Lemma filter_filter_comm {A : Type} (p q : A -> bool) (l : list A) :
  List.filter p (List.filter q l) = List.filter q (List.filter p l).
Proof.
  induction l as [|x l IH]; simpl; [reflexivity|].
  destruct (q x) eqn:Hq, (p x) eqn:Hp; simpl; rewrite ?Hq, ?Hp, IH; reflexivity.
Qed.

Lemma project_labels_unique (labels cols : list string) (c : string) :
  List.filter (String.eqb c) cols = [c] ->
  List.filter (String.eqb c) labels = [c] ->
  List.filter (String.eqb c) (project_labels labels cols) = [c].
Proof.
  intros Hcols. induction labels as [|l labels IH]; [discriminate|].
  change (project_labels (l :: labels) cols)
    with (List.filter (String.eqb l) cols ++ project_labels labels cols).
  rewrite List.filter_app. simpl. destruct (String.eqb_spec c l) as [<-|Hne].
  - intros [= Hrest]. rewrite Hcols. simpl.
    rewrite String.eqb_refl. simpl. f_equal.
    apply filter_nil_iff. intros x Hx. apply in_project_labels in Hx as [Hx _].
    by apply (proj1 (filter_nil_iff _ _) Hrest).
  - intros Hrest.
    assert (E : List.filter (String.eqb c) (List.filter (String.eqb l) cols) = []).
    { apply filter_nil_iff. intros x Hx. apply filter_In in Hx as [_ Hx].
      apply String.eqb_eq in Hx as <-. by apply String.eqb_neq. }
    rewrite E. simpl. by apply IH.
Qed.

Lemma filter_cols_total (df : DataFrame) :
  cols_filter_ready df -> filter_cols df = Ok (cols_filtered df).
Proof.
  intros (Hsrc & Halc & Hstr). unfold filter_cols.
  set (labels := List.filter has_prefix (columns df)).
  assert (Hsrc' : In "source_file" labels).
  { apply filter_In. split; [by apply has_unique_In | reflexivity]. }
  assert (Halc' : In "ALCEVER" labels).
  { apply filter_In. split; [by apply has_unique_In | reflexivity]. }
  rewrite select_columns_present
    by (intros c Hc; by apply filter_In in Hc as [Hc _]).
  simpl. rewrite getitem_unique; cycle 1.
  { unfold has_unique. cbn [columns]. apply project_labels_unique; [assumption|].
    unfold labels. by rewrite filter_filter_comm, Hsrc. }
  simpl. rewrite str_accessor_strings; cycle 1.
  { rewrite map_map. apply List.Forall_map.
    eapply Forall_impl; [exact Hstr|]. intros r Hr. simpl in Hr.
    by rewrite cell_project_row. }
  simpl. unfold labels. rewrite setitem_year
    by (unfold str_extract_year; by rewrite !length_map).
  fold labels. simpl. rewrite getitem_unique; cycle 1.
  { unfold has_unique. cbn [columns]. rewrite List.filter_app.
    rewrite project_labels_unique; [reflexivity | assumption |].
    unfold labels. by rewrite filter_filter_comm, Halc. }
  simpl. unfold select_rows, cols_filtered. simpl. fold labels.
  by rewrite with_year_rows, alcever_mask_rows.
Qed.

Lemma equals_num_spec (n : Q) (v : value) :
  equals_num n v = true <-> exists q, v = VNum q /\ (q == n)%Q.
Proof.
  destruct v as [q| |]; simpl.
  - rewrite Qeq_bool_iff. split; [intros H; by exists q|].
    by intros (q' & [= <-] & H).
  - split; [discriminate | by intros (q & H & _)].
  - split; [discriminate | by intros (q & H & _)].
Qed.

Lemma alcever_kept_spec (r : row) :
  alcever_kept r = true <-> alcever_is_1_or_2 r.
Proof.
  unfold alcever_kept, alcever_is_1_or_2.
  rewrite orb_true_iff, !equals_num_spec. split.
  - intros [(q & Hq & H) | (q & Hq & H)]; exists q; tauto.
  - intros (q & Hq & [H | H]); [left | right]; by exists q.
Qed.

Lemma has_prefix_spec (c : string) :
  has_prefix c = true <-> starts_with_a_prefix c.
Proof.
  unfold has_prefix, starts_with_a_prefix, startswith. rewrite existsb_exists.
  split.
  - intros (p & Hp & H). apply prefix_spec in H as [t Ht]. by exists p, t.
  - intros (p & t & Hp & Ht). exists p. split; [assumption|].
    apply prefix_spec. by exists t.
Qed.

(** C1.  The column/value filter returns on every table with one
    ALCEVER column and one [source_file] column of strings, and whenever
    it returns, its rows are the images of exactly the input rows whose
    ALCEVER is the number 1 or the number 2, in input order: a row with
    a missing ALCEVER or any other value is dropped, and every surviving
    row has ALCEVER 1 or 2. *)
Theorem filter_cols_keeps_alcever_1_or_2 (df : DataFrame) :
  (cols_filter_ready df -> exists out, filter_cols df = Ok out) /\
  (forall out, filter_cols df = Ok out ->
     let labels := List.filter has_prefix (columns df) in
     In "ALCEVER" (columns df) /\
     rows out = map (output_row labels) (List.filter alcever_kept (rows df)) /\
     (forall r, In r (rows df) ->
        (In (output_row labels r) (rows out) <-> alcever_is_1_or_2 r)) /\
     Forall alcever_is_1_or_2 (rows out)).
Proof.
  split.
  - intros Hready. exists (cols_filtered df). by apply filter_cols_total.
  - intros out H labels. apply filter_cols_inv in H as (_ & Halc & ->).
    assert (Halc' : In "ALCEVER" labels) by (apply filter_In; by split).
    split; [assumption|]. split; [reflexivity|]. simpl. fold labels. split.
    + intros r Hr. rewrite <- alcever_kept_spec. split.
      * intros Hin. apply in_map_iff in Hin as (r' & Heq & Hr').
        apply filter_In in Hr' as [_ Hk].
        rewrite <- (alcever_kept_output_row labels r Halc'), <- Heq.
        by rewrite alcever_kept_output_row.
      * intros Hk. apply in_map. apply filter_In. by split.
    + apply Forall_forall. intros r' Hr'.
      apply list_elem_of_In, in_map_iff in Hr' as (r & <- & Hr).
      apply filter_In in Hr as [_ Hk]. apply alcever_kept_spec.
      by rewrite alcever_kept_output_row.
Qed.

Lemma filter_cols_keeps_alcever_1_or_2_witness :
  exists out,
    filter_cols frame_alcever_codes = Ok out /\
    length (rows out) = 2 /\
    Forall alcever_is_1_or_2 (rows out).
Proof.
  destruct (filter_cols_keeps_alcever_1_or_2 frame_alcever_codes) as [Htotal Hrows].
  destruct Htotal as [out Hout].
  { repeat split; repeat constructor. }
  exists out. split; [assumption|].
  destruct (Hrows out Hout) as (_ & Heq & _ & Hall).
  split; [by rewrite Heq | assumption].
Defined.

(** C3, as amended.  Whenever the column/value filter returns, every
    column of its output other than the derived column [year] starts
    with one of the eight prefixes, every input column that starts with
    one is kept, and an input column that starts with none does not
    survive; the output always carries [year], which starts with none. *)
Theorem filter_cols_column_prefixes (df : DataFrame) :
  (cols_filter_ready df -> exists out, filter_cols df = Ok out) /\
  (forall out, filter_cols df = Ok out ->
     (forall c, In c (columns out) -> c = "year" \/ starts_with_a_prefix c) /\
     (forall c, In c (columns df) -> starts_with_a_prefix c -> In c (columns out)) /\
     (forall c, In c (columns df) -> ~ starts_with_a_prefix c -> c <> "year" ->
        ~ In c (columns out)) /\
     In "year" (columns out) /\ ~ starts_with_a_prefix "year").
Proof.
  split.
  - intros Hready. exists (cols_filtered df). by apply filter_cols_total.
  - intros out H. apply filter_cols_inv in H as (_ & _ & ->).
    unfold cols_filtered. simpl.
    assert (Hin : forall c,
      In c (project_labels (List.filter has_prefix (columns df)) (columns df) ++ ["year"])
      <-> (In c (columns df) /\ starts_with_a_prefix c) \/ c = "year").
    { intros c. rewrite in_app_iff, in_project_labels, filter_In, has_prefix_spec.
      simpl. split; [intros [H | [H | []]] | intros [H | H]]; try tauto; by auto. }
    repeat split.
    + intros c Hc. apply Hin in Hc. tauto.
    + intros c Hc Hp. apply Hin. tauto.
    + intros c Hc Hp Hy Hout. apply Hin in Hout. tauto.
    + apply Hin. by right.
    + rewrite <- has_prefix_spec. discriminate.
Qed.

Lemma filter_cols_column_prefixes_witness :
  exists out,
    filter_cols frame_alcever_codes = Ok out /\
    (forall c, In c (columns out) -> c = "year" \/ starts_with_a_prefix c) /\
    ~ In "QUESTID" (columns out).
Proof.
  destruct (filter_cols_column_prefixes frame_alcever_codes) as [Htotal Hcols].
  destruct Htotal as [out Hout].
  { repeat split; repeat constructor. }
  exists out. split; [assumption|].
  destruct (Hcols out Hout) as (Hpre & _ & Hdrop & _).
  split; [assumption|]. apply Hdrop.
  - by left.
  - rewrite <- has_prefix_spec. discriminate.
  - discriminate.
Defined.

(** C3, as stated, fails: the output of the column/value filter has the
    column [year], and [year] starts with none of the eight prefixes. *)
Lemma filter_cols_year_has_no_prefix :
  exists out,
    filter_cols frame_alcever_codes = Ok out /\
    In "year" (columns out) /\
    ~ starts_with_a_prefix "year".
Proof.
  exists (cols_filtered frame_alcever_codes).
  split; [reflexivity|]. split.
  - simpl. tauto.
  - rewrite <- has_prefix_spec. discriminate.
Qed.

(** ** The loader's loop *)

Lemma parsed_entries_cons (entry : string * read_result) (dir : directory) :
  parsed_entries (entry :: dir)
  = match entry with
    | (file, Parsed df) => if selected file then [(file, df)] else []
    | (_, Failed _) => []
    end ++ parsed_entries dir.
Proof. reflexivity. Qed.

Lemma loader_fold (dir : directory) (st : loader_state) :
  fold_left loader_step dir st
  = mkLS (diagnostics st ++ failure_messages dir)
         (dfs st ++ parsed_frames dir)
         (fold_left intersect_step (parsed_frames dir) (common_cols st)).
Proof.
  revert st. induction dir as [|[file rd] dir IH]; intros st.
  - simpl. rewrite !app_nil_r. by destruct st.
  - cbn [fold_left]. rewrite IH. unfold parsed_frames, failure_messages.
    rewrite parsed_entries_cons. cbn [flat_map loader_step].
    destruct (selected file) eqn:Hsel; [destruct rd as [df0|msg]|destruct rd];
      cbn [diagnostics dfs common_cols app map fst snd fold_left];
      rewrite <- ?app_assoc; reflexivity.
Qed.

Lemma elem_of_label_set (df : DataFrame) (c : string) :
  c ∈ label_set df <-> In c (columns df) /\ c <> "source_file".
Proof.
  unfold label_set.
  rewrite elem_of_difference, elem_of_list_to_set, elem_of_singleton, list_elem_of_In.
  reflexivity.
Qed.

Lemma intersect_from_some (frames : list DataFrame) (cc : gset string) :
  exists cc',
    fold_left intersect_step frames (Some cc) = Some cc' /\
    forall c, c ∈ cc' <-> c ∈ cc /\ forall df, In df frames -> c ∈ label_set df.
Proof.
  revert cc. induction frames as [|df frames IH]; intros cc.
  - exists cc. split; [reflexivity|]. intros c. split; [|tauto].
    intros H. split; [assumption | intros ? []].
  - cbn [fold_left].
    change (intersect_step (Some cc) df) with (Some (cc ∩ label_set df)).
    destruct (IH (cc ∩ label_set df)) as (cc' & Hcc' & Hspec).
    exists cc'. split; [assumption|]. intros c. rewrite Hspec, elem_of_intersection.
    split.
    + intros [[Hc Hdf] Hrest]. split; [assumption|].
      intros df' [<-|Hin]; [assumption | by apply Hrest].
    + intros [Hc Hall]. repeat split; [assumption | apply Hall; by left |].
      intros df' Hin. apply Hall. by right.
Qed.

(** The running intersection after the loop: nothing when no file was
    read, otherwise the labels other than [source_file] that every
    frame has. *)
Lemma intersect_all (frames : list DataFrame) :
  match fold_left intersect_step frames None with
  | None => frames = []
  | Some cc =>
      frames <> [] /\
      forall c, c ∈ cc <->
                c <> "source_file" /\ forall df, In df frames -> In c (columns df)
  end.
Proof.
  destruct frames as [|df frames]; [reflexivity|].
  cbn [fold_left]. change (intersect_step None df) with (Some (label_set df)).
  destruct (intersect_from_some frames (label_set df)) as (cc & -> & Hspec).
  split; [discriminate|]. intros c. rewrite Hspec, elem_of_label_set. split.
  - intros [[Hc Hne] Hall]. split; [assumption|].
    intros df' [<-|Hin]; [assumption|].
    by apply elem_of_label_set, Hall.
  - intros [Hne Hall]. split; [split; [apply Hall; by left | assumption]|].
    intros df' Hin. apply elem_of_label_set. split; [apply Hall; by right | assumption].
Qed.

Lemma loader_recoverable `{SetOrder} (dir : directory) :
  parsed_frames dir = [] \/ ~ share_a_column (parsed_frames dir) ->
  combine_common_columns_with_age dir
  = (failure_messages dir ++ [no_compatible_files], Ok empty_frame).
Proof.
  intros Hrec. unfold combine_common_columns_with_age.
  rewrite loader_fold. cbn [diagnostics dfs common_cols app].
  pose proof (intersect_all (parsed_frames dir)) as Hint.
  destruct (fold_left intersect_step (parsed_frames dir) None) as [cc|].
  - destruct Hint as [Hne Hspec].
    destruct (parsed_frames dir) as [|df frames] eqn:E; [done|].
    destruct Hrec as [Hrec | Hrec]; [discriminate|].
    destruct (decide (cc = ∅)) as [_|Hcc]; [reflexivity|].
    exfalso. apply Hcc. apply elem_of_equiv_empty_L. intros c Hc.
    apply Hspec in Hc as [Hne' Hall]. apply Hrec. by exists c.
  - rewrite Hint. reflexivity.
Qed.

Lemma loader_normal `{SetOrder} (dir : directory) :
  parsed_frames dir <> [] -> share_a_column (parsed_frames dir) ->
  exists cc : gset string,
    (forall c, c ∈ cc <->
       c <> "source_file" /\ forall df, In df (parsed_frames dir) -> In c (columns df)) /\
    combine_common_columns_with_age dir
    = (failure_messages dir,
       project_and_concat (set_to_list (cc ∪ {["AGE"; "source_file"]}))
                          (parsed_frames dir)).
Proof.
  intros Hne (c0 & Hc0 & Hall0). unfold combine_common_columns_with_age.
  rewrite loader_fold. cbn [diagnostics dfs common_cols app].
  pose proof (intersect_all (parsed_frames dir)) as Hint.
  destruct (fold_left intersect_step (parsed_frames dir) None) as [cc|]; [|done].
  destruct Hint as [_ Hspec]. exists cc. split; [assumption|].
  destruct (parsed_frames dir) as [|df frames] eqn:E; [done|].
  destruct (decide (cc = ∅)) as [Hcc|_]; [|reflexivity].
  exfalso. assert (Hin : c0 ∈ cc) by (apply Hspec; by split).
  rewrite Hcc in Hin. by apply not_elem_of_empty in Hin.
Qed.

Lemma parsed_frames_nil (dir : directory) :
  parsed_entries dir = [] -> parsed_frames dir = [].
Proof. unfold parsed_frames. by intros ->. Qed.

Lemma no_common_column_example :
  ~ share_a_column (parsed_frames directory_without_common_columns).
Proof.
  intros (c & Hne & Hall).
  assert (H1 := Hall _ (or_introl eq_refl)).
  assert (H2 := Hall _ (or_intror (or_introl eq_refl))).
  vm_compute in H1, H2.
  destruct H2 as [<-|[<-|[]]]; [|done].
  destruct H1 as [H1|[H1|[H1|[]]]]; discriminate.
Qed.

(** The recoverable path.  When no selected file is parsed, or the
    parsed files (tagged and renamed) have no label other than
    [source_file] in common, the loader prints its per-file diagnostics
    followed by the no-compatible-files message and returns the empty
    table. *)
Theorem loader_no_compatible_files `{SetOrder} (dir : directory) :
  parsed_entries dir = [] \/ ~ share_a_column (parsed_frames dir) ->
  combine_common_columns_with_age dir
  = (failure_messages dir ++ ["No compatible files found."], Ok empty_frame) /\
  columns empty_frame = [] /\ rows empty_frame = [].
Proof.
  intros Hrec. split; [|by split].
  apply loader_recoverable.
  destruct Hrec as [Hrec | Hrec]; [left; by apply parsed_frames_nil | by right].
Qed.

Lemma loader_no_compatible_files_witness :
  combine_common_columns_with_age []
  = (["No compatible files found."], Ok empty_frame) /\
  combine_common_columns_with_age directory_without_common_columns
  = (["Failed to read broken.txt: Error tokenizing data";
      "No compatible files found."], Ok empty_frame).
Proof.
  split.
  - apply (loader_no_compatible_files []). by left.
  - apply (loader_no_compatible_files directory_without_common_columns).
    right. exact no_common_column_example.
Defined.

(** ** The orchestrator on the loader's recoverable path *)

Lemma preprocess_data_recoverable `{SetOrder} (dir : directory) :
  parsed_frames dir = [] \/ ~ share_a_column (parsed_frames dir) ->
  preprocess_data dir
  = (failure_messages dir ++ [no_compatible_files], Raise (KeyError "source_file")).
Proof.
  intros Hrec. unfold preprocess_data. by rewrite (loader_recoverable dir Hrec).
Qed.

(** C4 fails on the code.  Whenever the loader takes its recoverable
    path and hands back the empty table, the orchestrator does not
    return a table: the age filter looks up [source_file] in a table
    without columns and raises [KeyError]. *)
Theorem preprocess_data_raises_on_recoverable_path `{SetOrder} (dir : directory) :
  parsed_entries dir = [] \/ ~ share_a_column (parsed_frames dir) ->
  combine_common_columns_with_age dir
  = (failure_messages dir ++ ["No compatible files found."], Ok empty_frame) /\
  preprocess_data dir
  = (failure_messages dir ++ ["No compatible files found."],
     Raise (KeyError "source_file")).
Proof.
  intros Hrec.
  assert (Hrec' : parsed_frames dir = [] \/ ~ share_a_column (parsed_frames dir)).
  { destruct Hrec as [Hrec | Hrec]; [left; by apply parsed_frames_nil | by right]. }
  split; [by apply loader_recoverable | by apply preprocess_data_recoverable].
Qed.

Lemma preprocess_data_raises_on_recoverable_path_witness :
  preprocess_data [] = (["No compatible files found."], Raise (KeyError "source_file")).
Proof.
  apply (preprocess_data_raises_on_recoverable_path []). by left.
Defined.

(** ** Concatenation *)

Lemma traverse_ok {A B : Type} (f : A -> result B) (g : A -> B) (l : list A) :
  (forall x, In x l -> f x = Ok (g x)) -> traverse f l = Ok (map g l).
Proof.
  induction l as [|x l IH]; intros Hf; [reflexivity|].
  simpl. rewrite (Hf x (or_introl eq_refl)). simpl.
  rewrite IH; [reflexivity|]. intros y Hy. apply Hf. by right.
Qed.

Lemma project_and_concat_eq (final_cols : list string) (frames : list DataFrame) :
  project_and_concat final_cols frames = concat (map (projected final_cols) frames).
Proof.
  unfold project_and_concat.
  rewrite (traverse_ok _ (projected final_cols)); [reflexivity|].
  intros df _. apply select_columns_present.
  intros c Hc. apply filter_In in Hc as [_ Hc]. by apply has_col_In.
Qed.

Lemma existsb_eqb_In (c : string) (l : list string) :
  existsb (String.eqb c) l = true <-> In c l.
Proof.
  rewrite existsb_exists. split.
  - intros (x & Hx & Heq). by apply String.eqb_eq in Heq as ->.
  - intros Hin. exists c. split; [assumption | apply String.eqb_refl].
Qed.

Lemma in_add_labels (acc cols : list string) (c : string) :
  In c (add_labels acc cols) <-> In c acc \/ In c cols.
Proof.
  unfold add_labels. rewrite in_app_iff, filter_In, negb_true_iff. split.
  - tauto.
  - intros [Hacc | Hcols]; [by left|].
    destruct (existsb (String.eqb c) acc) eqn:E.
    + left. by apply existsb_eqb_In.
    + by right.
Qed.

Lemma in_fold_add_labels (ls : list (list string)) (acc : list string) (c : string) :
  In c (fold_left add_labels ls acc) <-> In c acc \/ exists l, In l ls /\ In c l.
Proof.
  revert acc. induction ls as [|l ls IH]; intros acc; simpl.
  - split; [by left | by intros [H | (l & [] & _)]].
  - rewrite IH, in_add_labels. split.
    + intros [[H | H] | (l' & Hl' & Hc)]; [by left | right; by eauto | right; by eauto].
    + intros [H | (l' & [<- | Hl'] & Hc)]; [by auto | by auto | right; by eauto].
Qed.

Lemma in_union_labels (frames : list DataFrame) (c : string) :
  In c (union_labels (map columns frames)) <->
  exists df, In df frames /\ In c (columns df).
Proof.
  unfold union_labels. rewrite in_fold_add_labels. split.
  - intros [[] | (l & Hl & Hc)]. apply in_map_iff in Hl as (df & <- & Hdf). by eauto.
  - intros (df & Hdf & Hc). right. exists (columns df). split; [|assumption].
    by apply in_map.
Qed.

Lemma cell_reindex (cols : list string) (r : row) (c : string) :
  In c cols -> cell (reindex cols r) c = cell r c.
Proof.
  unfold reindex. induction cols as [|k cols IH]; [intros []|].
  intros Hin. simpl. destruct (String.eqb_spec k c) as [->|Hne]; [reflexivity|].
  destruct Hin as [->|Hin]; [done | by apply IH].
Qed.

Lemma flat_map_rows_id (frames : list DataFrame) :
  flat_map rows frames = flat_map (fun df => map (fun r => r) (rows df)) frames.
Proof. apply flat_map_ext. intros df. by rewrite map_id. Qed.

Lemma concat_inv (frames : list DataFrame) (out : DataFrame) :
  concat frames = Ok out ->
  (forall c, In c (columns out) <-> exists df, In df frames /\ In c (columns df)) /\
  exists g : row -> row,
    rows out = flat_map (fun df => map g (rows df)) frames /\
    forall r c, In c (columns out) -> cell (g r) c = cell r c.
Proof.
  unfold concat. destruct frames as [|df0 rest]; [discriminate|].
  destruct (forallb _ rest) eqn:Esame.
  - intros [= <-]. cbn [columns rows]. split.
    + intros c. split.
      * intros Hc. exists df0. split; [by left | assumption].
      * intros (df & [<- | Hdf] & Hc); [assumption|].
        rewrite forallb_forall in Esame. specialize (Esame df Hdf).
        apply bool_decide_eq_true in Esame. by rewrite <- Esame.
    + exists (fun r => r). split; [exact (flat_map_rows_id (df0 :: rest)) | reflexivity].
  - destruct (forallb _ (df0 :: rest)); [|discriminate].
    intros [= <-]. cbn [columns rows]. split.
    + intros c. exact (in_union_labels (df0 :: rest) c).
    + exists (reindex (union_labels (map columns (df0 :: rest)))).
      split; [reflexivity|]. intros r c Hc. by apply cell_reindex.
Qed.

Lemma concat_total (frames : list DataFrame) :
  frames <> [] -> Forall (fun df => NoDup (columns df)) frames ->
  exists out, concat frames = Ok out.
Proof.
  intros Hne Hnd. unfold concat. destruct frames as [|df0 rest]; [done|].
  destruct (forallb _ rest); [by eauto|].
  assert (E : forallb (fun df => bool_decide (NoDup (columns df))) (df0 :: rest) = true).
  { apply forallb_forall. intros df Hdf. apply bool_decide_eq_true.
    rewrite Forall_forall in Hnd. apply Hnd. by apply list_elem_of_In. }
  rewrite E. by eauto.
Qed.

(** ** The loader's output *)

Lemma in_set_to_list `{SetOrder} (X : gset string) (c : string) :
  In c (set_to_list X) <-> c ∈ X.
Proof.
  rewrite <- list_elem_of_In, (set_to_list_perm X). apply elem_of_elements.
Qed.

Lemma NoDup_set_to_list `{SetOrder} (X : gset string) : NoDup (set_to_list X).
Proof. rewrite (set_to_list_perm X). apply NoDup_elements. Qed.

Lemma in_final_cols `{SetOrder} (cc : gset string) (c : string) :
  In c (set_to_list (cc ∪ {["AGE"; "source_file"]})) <->
  c ∈ cc \/ c = "AGE" \/ c = "source_file".
Proof.
  rewrite in_set_to_list, !elem_of_union, !elem_of_singleton. tauto.
Qed.

Lemma in_columns_projected (final_cols : list string) (df : DataFrame) (c : string) :
  In c (columns (projected final_cols df)) <-> In c final_cols /\ In c (columns df).
Proof.
  unfold projected. cbn [columns].
  rewrite in_project_labels, filter_In, has_col_In. tauto.
Qed.

Lemma flat_map_map {A B C : Type} (f : B -> list C) (h : A -> B) (l : list A) :
  flat_map f (map h l) = flat_map (fun x => f (h x)) l.
Proof.
  induction l as [|x l IH]; simpl; [reflexivity | by rewrite IH].
Qed.

Lemma project_and_concat_columns (final_cols : list string) (frames : list DataFrame)
    (out : DataFrame) :
  project_and_concat final_cols frames = Ok out ->
  forall c, In c (columns out) <->
            In c final_cols /\ exists df, In df frames /\ In c (columns df).
Proof.
  rewrite project_and_concat_eq. intros H c.
  apply concat_inv in H as [Hcols _]. rewrite Hcols. split.
  - intros (df' & Hdf' & Hc). apply in_map_iff in Hdf' as (df & <- & Hdf).
    apply in_columns_projected in Hc as [Hfc Hc]. by eauto.
  - intros (Hfc & df & Hdf & Hc). exists (projected final_cols df).
    split; [by apply in_map | by apply in_columns_projected].
Qed.

Lemma project_and_concat_rows (final_cols : list string) (frames : list DataFrame)
    (out : DataFrame) :
  project_and_concat final_cols frames = Ok out ->
  exists image : DataFrame -> row -> row,
    rows out = flat_map (fun df => map (image df) (rows df)) frames /\
    forall df r c, In c (columns out) ->
      cell (image df r) c = if has_col df c then cell r c else VNaN.
Proof.
  intros H. pose proof (project_and_concat_columns _ _ _ H) as Hcols.
  rewrite project_and_concat_eq in H. apply concat_inv in H as (_ & g & Hrows & Hg).
  exists (fun df r => g (project_row (List.filter (has_col df) final_cols) r)).
  split.
  - rewrite Hrows, flat_map_map. apply flat_map_ext. intros df.
    unfold projected. cbn [rows]. by rewrite map_map.
  - intros df r c Hc. rewrite (Hg _ _ Hc). apply Hcols in Hc as [Hfc _].
    destruct (has_col df c) eqn:E.
    + apply cell_project_row, filter_In. by split.
    + apply cell_project_row_absent. intros Hin.
      apply filter_In in Hin as [_ Hin]. congruence.
Qed.

Lemma NoDup_project_labels (labels cols : list string) :
  NoDup labels -> NoDup cols -> NoDup (project_labels labels cols).
Proof.
  intros Hl Hc. induction Hl as [|l labels Hnotin Hl IH]; [constructor|].
  change (project_labels (l :: labels) cols)
    with (List.filter (String.eqb l) cols ++ project_labels labels cols).
  apply NoDup_app. split; [exact (sublist_NoDup _ _ Hc (filter_sublist _ _))|].
  split; [|assumption].
  intros x Hx Hx'. apply list_elem_of_In, filter_In in Hx as [_ Hx].
  apply String.eqb_eq in Hx as <-.
  apply list_elem_of_In, in_project_labels in Hx' as [Hx' _].
  apply Hnotin. by apply list_elem_of_In.
Qed.

Lemma project_and_concat_total (final_cols : list string) (frames : list DataFrame) :
  frames <> [] -> NoDup final_cols ->
  Forall (fun df => NoDup (columns df)) frames ->
  exists out, project_and_concat final_cols frames = Ok out.
Proof.
  intros Hne Hfc Hnd. rewrite project_and_concat_eq. apply concat_total.
  - by destruct frames.
  - apply List.Forall_map. eapply Forall_impl; [exact Hnd|].
    intros df Hdf. cbn beta in *. unfold projected. cbn [columns].
    apply NoDup_project_labels; [|assumption].
    exact (sublist_NoDup _ _ Hfc (filter_sublist _ _)).
Qed.

Lemma loader_total `{SetOrder} (dir : directory) :
  Forall (fun df => NoDup (columns df)) (parsed_frames dir) ->
  exists out, snd (combine_common_columns_with_age dir) = Ok out.
Proof.
  intros Hnd. unfold combine_common_columns_with_age.
  rewrite loader_fold. cbn [diagnostics dfs common_cols app].
  destruct (parsed_frames dir) as [|df frames] eqn:E; [by eauto|].
  destruct (fold_left intersect_step _ None) as [cc|]; [|by eauto].
  destruct (decide (cc = ∅)); [by eauto|]. cbn [snd].
  apply project_and_concat_total; [done | apply NoDup_set_to_list | assumption].
Qed.

Lemma harmonize_has_source_file (file : string) (df : DataFrame) :
  In "source_file" (columns (harmonize file df)).
Proof.
  assert (H0 : In "source_file" (columns (setitem_scalar df "source_file" (VStr file)))).
  { unfold setitem_scalar, set_labels. cbn [columns].
    destruct (has_col df "source_file") eqn:E.
    - by apply has_col_In.
    - apply in_app_iff. right. by left. }
  unfold harmonize, age_column_candidates. cbn [rename_first_alias].
  destruct (has_col _ "AGE2").
  { cbn [rename columns].
    by apply (in_map (rename_label "AGE2" "AGE")) in H0. }
  destruct (has_col _ "AGE3"); [|assumption].
  cbn [rename columns]. by apply (in_map (rename_label "AGE3" "AGE")) in H0.
Qed.

Lemma parsed_frames_have_source_file (dir : directory) (df : DataFrame) :
  In df (parsed_frames dir) -> In "source_file" (columns df).
Proof.
  unfold parsed_frames. intros H. apply in_map_iff in H as (e & <- & _).
  apply harmonize_has_source_file.
Qed.

Lemma parsed_frames_not_nil (dir : directory) :
  parsed_entries dir <> [] -> parsed_frames dir <> [].
Proof. unfold parsed_frames. by destruct (parsed_entries dir). Qed.

Lemma loader_normal_columns `{SetOrder} (dir : directory) (out : DataFrame) :
  parsed_frames dir <> [] -> share_a_column (parsed_frames dir) ->
  snd (combine_common_columns_with_age dir) = Ok out ->
  forall c, In c (columns out) <->
    (forall df, In df (parsed_frames dir) -> In c (columns df)) \/
    (c = "AGE" /\ exists df, In df (parsed_frames dir) /\ In "AGE" (columns df)) \/
    (c = "source_file" /\
     exists df, In df (parsed_frames dir) /\ In "source_file" (columns df)).
Proof.
  intros Hne Hshare Hout c.
  destruct (loader_normal dir Hne Hshare) as (cc & Hcc & Heq).
  rewrite Heq in Hout. cbn [snd] in Hout.
  rewrite (project_and_concat_columns _ _ _ Hout c), in_final_cols.
  split.
  - intros ([Hc | [-> | ->]] & df & Hdf & Hin).
    + left. by apply Hcc.
    + right. left. by eauto.
    + right. right. by eauto.
  - intros [Hall | [[-> Hex] | [-> Hex]]]; [|by auto | by auto].
    destruct (parsed_frames dir) as [|df0 frames] eqn:E; [done|].
    split; [|exists df0; split; [by left | apply Hall; by left]].
    destruct (String.eqb_spec c "source_file") as [->|Hsf]; [by auto|].
    left. apply Hcc. by split.
Qed.


Lemma scenario_shares_a_column : share_a_column (parsed_frames scenario).
Proof.
  exists "ALCEVER". split; [discriminate|].
  intros df [<- | [<- | []]]; vm_compute; tauto.
Qed.



(** ** Unreadable files *)

Lemma parsed_entries_readable_only (dir : directory) :
  parsed_entries (readable_only dir) = parsed_entries dir.
Proof.
  induction dir as [|[file rd] dir IH]; [reflexivity|].
  unfold readable_only in *. cbn [List.filter snd].
  destruct rd as [df|msg].
  - rewrite !parsed_entries_cons. by rewrite IH.
  - rewrite parsed_entries_cons. by rewrite IH.
Qed.

Lemma parsed_frames_readable_only (dir : directory) :
  parsed_frames (readable_only dir) = parsed_frames dir.
Proof. unfold parsed_frames. by rewrite parsed_entries_readable_only. Qed.

Lemma loader_result_by_frames `{SetOrder} (dir1 dir2 : directory) :
  parsed_frames dir1 = parsed_frames dir2 ->
  snd (combine_common_columns_with_age dir1)
  = snd (combine_common_columns_with_age dir2).
Proof.
  intros E. unfold combine_common_columns_with_age.
  rewrite !loader_fold. cbn [diagnostics dfs common_cols app]. rewrite E.
  destruct (parsed_frames dir2) as [|df frames]; [reflexivity|].
  destruct (fold_left intersect_step _ None) as [cc|]; [|reflexivity].
  by destruct (decide (cc = ∅)).
Qed.

Lemma preprocess_data_snd `{SetOrder} (dir : directory) :
  snd (preprocess_data dir)
  = (df ← snd (combine_common_columns_with_age dir); df ← filter_age df; filter_cols df).
Proof.
  unfold preprocess_data. by destruct (combine_common_columns_with_age dir).
Qed.

Lemma preprocess_data_inv `{SetOrder} (dir : directory) (out : DataFrame) :
  snd (preprocess_data dir) = Ok out ->
  exists L,
    snd (combine_common_columns_with_age dir) = Ok L /\
    age_filter_ready L /\
    In "source_file" (columns L) /\ In "ALCEVER" (columns L) /\
    out = cols_filtered (age_filtered L).
Proof.
  intros Hout. rewrite preprocess_data_snd in Hout.
  destruct (snd (combine_common_columns_with_age dir)) as [L|]; [|discriminate].
  simpl in Hout.
  destruct (filter_age L) as [A|] eqn:EA; [|discriminate]. simpl in Hout.
  apply filter_age_inv in EA as [Hready ->].
  apply filter_cols_inv in Hout as (Hsf & Halc & ->).
  exists L. exact (conj eq_refl (conj Hready (conj Hsf (conj Halc eq_refl)))).
Qed.

Lemma loader_prints_failures `{SetOrder} (dir : directory) (m : string) :
  In m (failure_messages dir) -> In m (fst (combine_common_columns_with_age dir)).
Proof.
  intros Hm. unfold combine_common_columns_with_age.
  rewrite loader_fold. cbn [diagnostics dfs common_cols app].
  destruct (parsed_frames dir) as [|df frames];
    [cbn [fst]; apply in_app_iff; by left|].
  destruct (fold_left intersect_step _ None) as [cc|];
    [|cbn [fst]; apply in_app_iff; by left].
  destruct (decide (cc = ∅)); cbn [fst]; [apply in_app_iff; by left | assumption].
Qed.

Lemma in_failure_messages (dir : directory) (file msg : string) :
  In (file, Failed msg) dir -> selected file = true ->
  In ("Failed to read " +:+ file +:+ ": " +:+ msg) (failure_messages dir).
Proof.
  intros Hin Hsel. unfold failure_messages. apply in_flat_map.
  exists (file, Failed msg). split; [assumption|]. rewrite Hsel. by left.
Qed.

Lemma loader_rows `{SetOrder} (dir : directory) (out : DataFrame) :
  share_a_column (parsed_frames dir) ->
  snd (combine_common_columns_with_age dir) = Ok out ->
  exists image : DataFrame -> row -> row,
    rows out = flat_map (fun df => map (image df) (rows df)) (parsed_frames dir) /\
    forall df r c, In c (columns out) ->
      cell (image df r) c = if has_col df c then cell r c else VNaN.
Proof.
  intros Hshare Hout.
  destruct (parsed_frames dir) as [|df0 frames] eqn:E.
  - rewrite loader_recoverable in Hout by (by left).
    injection Hout as <-. exists (fun _ r => r). split; [reflexivity|].
    intros df r c [].
  - destruct (loader_normal dir) as (cc & _ & Heq);
      [by rewrite E | by rewrite E |].
    rewrite Heq in Hout. cbn [snd] in Hout. rewrite E in Hout.
    by apply project_and_concat_rows in Hout.
Qed.

(** ** Provenance *)

Lemma has_key_map_fst (r : row) (c : string) :
  has_key r c = existsb (String.eqb c) (map fst r).
Proof.
  unfold has_key. induction r as [|[k v] r IH]; [reflexivity|].
  simpl. by rewrite IH, String.eqb_sym.
Qed.

Lemma cell_set_present (r : row) (c : string) (v : value) :
  has_key r c = true -> cell (set_cell true c v r) c = v.
Proof.
  unfold set_cell, has_key. induction r as [|[k w] r IH]; [discriminate|].
  simpl. destruct (String.eqb_spec k c) as [->|Hne]; simpl.
  - by rewrite String.eqb_refl.
  - destruct (String.eqb_spec k c); [done|]. exact IH.
Qed.

Lemma cell_set_absent (r : row) (c : string) (v : value) :
  has_key r c = false -> cell (set_cell false c v r) c = v.
Proof.
  unfold set_cell, has_key. induction r as [|[k w] r IH]; simpl.
  - by rewrite String.eqb_refl.
  - destruct (String.eqb_spec k c) as [->|Hne]; simpl; [discriminate | exact IH].
Qed.

Lemma cell_rename (old new c : string) (r : row) :
  c <> old -> c <> new ->
  cell (map (fun kv => (rename_label old new (fst kv), snd kv)) r) c = cell r c.
Proof.
  intros Hold Hnew. induction r as [|[k v] r IH]; [reflexivity|].
  simpl. rewrite IH. unfold rename_label.
  destruct (String.eqb_spec k old) as [->|Hk]; [|reflexivity].
  destruct (String.eqb_spec new c) as [->|_]; [done|].
  by destruct (String.eqb_spec old c) as [->|_].
Qed.

Lemma setitem_scalar_tagged (df : DataFrame) (c : string) (v : value) :
  well_formed df ->
  Forall (fun r => cell r c = v) (rows (setitem_scalar df c v)).
Proof.
  unfold well_formed, setitem_scalar. cbn [rows]. intros Hwf.
  apply List.Forall_map. eapply Forall_impl; [exact Hwf|].
  intros r Hr. cbn beta in *.
  assert (Hk : has_key r c = has_col df c).
  { rewrite has_key_map_fst, Hr. reflexivity. }
  destruct (has_col df c); [by apply cell_set_present | by apply cell_set_absent].
Qed.

Lemma rename_tagged (old new c : string) (v : value) (df : DataFrame) :
  c <> old -> c <> new ->
  Forall (fun r => cell r c = v) (rows df) ->
  Forall (fun r => cell r c = v) (rows (rename old new df)).
Proof.
  intros Hold Hnew Hall. unfold rename. cbn [rows]. apply List.Forall_map.
  eapply Forall_impl; [exact Hall|]. intros r Hr. cbn beta in *.
  by rewrite cell_rename.
Qed.

Lemma harmonize_tagged (file : string) (df : DataFrame) :
  well_formed df ->
  Forall (fun r => cell r "source_file" = VStr file) (rows (harmonize file df)).
Proof.
  intros Hwf.
  pose proof (setitem_scalar_tagged df "source_file" (VStr file) Hwf) as H0.
  unfold harmonize, age_column_candidates. cbn [rename_first_alias].
  destruct (has_col _ "AGE2"); [by apply rename_tagged|].
  destruct (has_col _ "AGE3"); [by apply rename_tagged | assumption].
Qed.

Lemma harmonize_length (file : string) (df : DataFrame) :
  length (rows (harmonize file df)) = length (rows df).
Proof.
  unfold harmonize, age_column_candidates. cbn [rename_first_alias].
  destruct (has_col _ "AGE2"); [|destruct (has_col _ "AGE3")];
    unfold rename, setitem_scalar; cbn [rows]; by rewrite ?length_map.
Qed.

Lemma map_constant {A B : Type} (h : A -> B) (v : B) (l : list A) :
  Forall (fun x => h x = v) l -> map h l = repeat v (length l).
Proof.
  induction 1 as [|x l Hx _ IH]; [reflexivity|]. simpl. by rewrite Hx, IH.
Qed.

Lemma map_flat_map {A B C : Type} (h : B -> C) (f : A -> list B) (l : list A) :
  map h (flat_map f l) = flat_map (fun x => map h (f x)) l.
Proof.
  induction l as [|x l IH]; [reflexivity|]. simpl. by rewrite map_app, IH.
Qed.

Lemma flat_map_ext_in {A B : Type} (f g : A -> list B) (l : list A) :
  (forall x, In x l -> f x = g x) -> flat_map f l = flat_map g l.
Proof.
  induction l as [|x l IH]; intros Hfg; [reflexivity|]. simpl.
  rewrite (Hfg x (or_introl eq_refl)), IH; [reflexivity|].
  intros y Hy. apply Hfg. by right.
Qed.

Lemma loader_nonempty_shares `{SetOrder} (dir : directory) (out : DataFrame) :
  snd (combine_common_columns_with_age dir) = Ok out ->
  columns out <> [] ->
  parsed_frames dir <> [] /\ share_a_column (parsed_frames dir).
Proof.
  unfold combine_common_columns_with_age.
  rewrite loader_fold. cbn [diagnostics dfs common_cols app].
  pose proof (intersect_all (parsed_frames dir)) as Hint.
  destruct (parsed_frames dir) as [|df frames] eqn:E.
  { cbn [snd]. by intros [= <-]. }
  destruct (fold_left intersect_step _ None) as [cc|];
    [|cbn [snd]; by intros [= <-]].
  destruct Hint as [_ Hspec].
  destruct (decide (cc = ∅)) as [|Hcc]; [cbn [snd]; by intros [= <-]|].
  intros _ _. split; [discriminate|].
  apply set_choose_L in Hcc as [c Hc]. apply Hspec in Hc as [Hne Hall].
  by exists c.
Qed.

Lemma loader_tags `{SetOrder} (dir : directory) (out : DataFrame) :
  Forall (fun e => well_formed (snd e)) (parsed_entries dir) ->
  share_a_column (parsed_frames dir) ->
  snd (combine_common_columns_with_age dir) = Ok out ->
  map (fun r => cell r "source_file") (rows out) = provenance_tags dir.
Proof.
  intros Hwf Hshare Hout.
  destruct (loader_rows dir out Hshare Hout) as (image & Heq & Hcell).
  unfold provenance_tags. rewrite Heq, map_flat_map. unfold parsed_frames.
  rewrite flat_map_map. apply flat_map_ext_in. intros [file df0] He.
  cbn [fst snd]. rewrite map_map.
  assert (Hne : parsed_frames dir <> []).
  { unfold parsed_frames. by destruct (parsed_entries dir). }
  assert (Hsf : In "source_file" (columns out)).
  { apply (loader_normal_columns dir out Hne Hshare Hout). left.
    apply parsed_frames_have_source_file. }
  rewrite <- (harmonize_length file df0). apply map_constant.
  rewrite Forall_forall in Hwf. apply list_elem_of_In in He.
  specialize (Hwf _ He). cbn [snd] in Hwf.
  eapply Forall_impl; [exact (harmonize_tagged file df0 Hwf)|].
  intros r Hr. cbn beta in *. rewrite (Hcell _ _ _ Hsf).
  pose proof (harmonize_has_source_file file df0) as Hin.
  apply has_col_In in Hin. by rewrite Hin.
Qed.

Lemma cell_output_row (labels : list string) (r : row) (c : string) :
  In c labels -> c <> "year" -> cell (output_row labels r) c = cell r c.
Proof.
  intros Hin Hne. unfold output_row.
  rewrite cell_snoc_ne by congruence. by apply cell_project_row.
Qed.

Lemma Forall2_map_same {A B : Type} (R : A -> B -> Prop) (f : A -> B) (l : list A) :
  (forall x, R x (f x)) -> Forall2 R l (map f l).
Proof. intros HR. induction l; simpl; by constructor. Qed.

Lemma pipeline_row_origin `{SetOrder} (dir : directory) (out : DataFrame) (r' : row) :
  Forall (fun e => well_formed (snd e)) (parsed_entries dir) ->
  snd (preprocess_data dir) = Ok out ->
  In r' (rows out) ->
  exists file df0 r,
    In (file, df0) (parsed_entries dir) /\
    In r (rows (harmonize file df0)) /\
    cell r "source_file" = VStr file /\
    cell r' "source_file" = cell r "source_file".
Proof.
  intros Hwf Hout Hr'. rewrite preprocess_data_snd in Hout.
  destruct (snd (combine_common_columns_with_age dir)) as [L|] eqn:EL; [|discriminate].
  simpl in Hout.
  destruct (filter_age L) as [A|] eqn:EA; [|discriminate]. simpl in Hout.
  apply filter_age_inv in EA as [(HsfL & _) ->].
  apply filter_cols_inv in Hout as (HsfA & _ & ->).
  unfold cols_filtered in Hr'. cbn [rows columns age_filtered] in Hr', HsfA.
  set (labels := List.filter has_prefix (columns L)) in *.
  apply in_map_iff in Hr' as (rA & <- & HrA).
  apply filter_In in HrA as [HrA _].
  change (In rA (rows (age_filtered L))) in HrA.
  apply in_age_filtered in HrA as [HrA _].
  assert (HLne : columns L <> []) by (by destruct (columns L)).
  destruct (loader_nonempty_shares dir L EL HLne) as [Hne Hshare].
  destruct (loader_rows dir L Hshare EL) as (image & Heq & Hcell).
  rewrite Heq in HrA. apply in_flat_map in HrA as (df & Hdf & HrA).
  apply in_map_iff in HrA as (r & <- & Hr).
  unfold parsed_frames in Hdf. apply in_map_iff in Hdf as ([file df0] & <- & He).
  cbn [fst snd] in *. exists file, df0, r.
  split; [assumption|]. split; [assumption|].
  assert (Hsrc : In "source_file" labels) by (apply filter_In; by split).
  split.
  - rewrite Forall_forall in Hwf. apply list_elem_of_In in He.
    specialize (Hwf _ He). cbn [snd] in Hwf.
    pose proof (harmonize_tagged file df0 Hwf) as Htag.
    rewrite Forall_forall in Htag. apply Htag. by apply list_elem_of_In.
  - rewrite cell_output_row by (assumption || discriminate).
    rewrite (Hcell _ _ _ HsfA).
    pose proof (harmonize_has_source_file file df0) as Hin.
    apply has_col_In in Hin. by rewrite Hin.
Qed.


Lemma scenario_well_formed :
  Forall (fun e => well_formed (snd e)) (parsed_entries scenario).
Proof. repeat (apply List.Forall_cons || apply List.Forall_nil || reflexivity). Qed.


(** ** The round-trip scenario *)

(** One listing order of the final columns: run the three stages and
    compare. *)
Ltac round_trip_case :=
  unfold round_trip_outcome;
  match goal with
  | |- exists L A out r1 r2, (_, ?l) = _ /\ _ =>
      let lv := eval vm_compute in l in
      match lv with
      | Ok ?L =>
          let av := eval vm_compute in (filter_age L) in
          match av with
          | Ok ?A =>
              let ov := eval vm_compute in (filter_cols A) in
              match ov with
              | Ok (mkDF ?cols [?r1; ?r2]) =>
                  exists L, A, (mkDF cols [r1; r2]), r1, r2
              end
          end
      end
  end;
  unfold expected_row;
  repeat match goal with |- _ /\ _ => split end;
  first [ by vm_compute | apply (bool_decide_unpack _); by vm_compute ].

Lemma round_trip_for_every_order (final_cols : list string) (frames : list DataFrame) :
  final_cols ∈ permutations scenario_columns ->
  frames = parsed_frames scenario \/ frames = parsed_frames scenario_reversed ->
  round_trip_outcome
    ([], project_and_concat final_cols frames)
    ([], df ← project_and_concat final_cols frames; df ← filter_age df; filter_cols df).
Proof.
  intros Hfc Hfr.
  let v := eval vm_compute in (permutations scenario_columns) in
  change (final_cols ∈ v) in Hfc.
  destruct Hfr as [-> | ->];
    repeat (apply elem_of_cons in Hfc as [-> | Hfc]);
    try (by apply elem_of_nil in Hfc);
    round_trip_case.
Qed.

Lemma final_cols_of_scenario `{SetOrder} (frames : list DataFrame) (cc : gset string) :
  frames <> [] ->
  (forall df, In df frames -> columns df = scenario_columns) ->
  (forall c, c ∈ cc <->
     c <> "source_file" /\ forall df, In df frames -> In c (columns df)) ->
  set_to_list (cc ∪ {["AGE"; "source_file"]}) ∈ permutations scenario_columns.
Proof.
  intros Hne Hcols Hcc. apply permutations_Permutation.
  apply NoDup_Permutation.
  - apply (bool_decide_unpack _). by vm_compute.
  - apply NoDup_set_to_list.
  - intros c. rewrite !list_elem_of_In, in_final_cols, Hcc.
    assert (Hall : (forall df, In df frames -> In c (columns df)) <->
                   In c scenario_columns).
    { destruct frames as [|df0 frames]; [done|]. split.
      - intros Hin. rewrite <- (Hcols df0) by (by left). apply Hin. by left.
      - intros Hin df Hdf. by rewrite (Hcols df Hdf). }
    rewrite Hall. unfold scenario_columns. simpl.
    destruct (String.eqb_spec c "source_file") as [->|Hsf]; [tauto|].
    split; [tauto|]. intros [[_ Hin] | [-> | ->]]; tauto.
Qed.

Lemma round_trip_of_directory `{SetOrder} (dir : directory) :
  parsed_frames dir = parsed_frames scenario \/
  parsed_frames dir = parsed_frames scenario_reversed ->
  failure_messages dir = [] ->
  round_trip_outcome (combine_common_columns_with_age dir) (preprocess_data dir).
Proof.
  intros Hfr Hlog.
  assert (Hcols : forall df, In df (parsed_frames dir) -> columns df = scenario_columns).
  { intros df Hdf. destruct Hfr as [E | E]; rewrite E in Hdf;
      destruct Hdf as [<- | [<- | []]]; reflexivity. }
  assert (Hne : parsed_frames dir <> []).
  { destruct Hfr as [E | E]; rewrite E; discriminate. }
  assert (Hshare : share_a_column (parsed_frames dir)).
  { exists "ALCEVER". split; [discriminate|]. intros df Hdf.
    rewrite (Hcols df Hdf). simpl. tauto. }
  destruct (loader_normal dir Hne Hshare) as (cc & Hcc & Heq).
  unfold preprocess_data. rewrite Heq, Hlog.
  apply round_trip_for_every_order; [|assumption].
  by apply (final_cols_of_scenario (parsed_frames dir)).
Qed.

(** C9.  The round-trip scenario, for either order in which the
    directory lists the two files and for every order in which the set
    of final columns is listed: the loader prints nothing and returns
    two rows under the columns AGE, ALCEVER, IRSEX and [source_file]
    (both age aliases renamed); the age filter keeps both rows; the
    column/value filter keeps both and adds [year]; the orchestrator
    returns the row of [2022.txt] (age 5, ALCEVER 1, IRSEX 2, year
    "2022") followed by the row of [old.txt] (age 9, ALCEVER 2,
    IRSEX 1, year missing). *)
Theorem round_trip_scenario `{SetOrder} :
  round_trip_outcome (combine_common_columns_with_age scenario)
                     (preprocess_data scenario) /\
  round_trip_outcome (combine_common_columns_with_age scenario_reversed)
                     (preprocess_data scenario_reversed).
Proof.
  split; apply round_trip_of_directory; (by left) || (by right) || reflexivity.
Qed.

(** ** The age aliases in the running intersection *)

Lemma final_cols_of_age_aliases `{SetOrder} (cc : gset string) :
  (forall c, c ∈ cc <->
     c <> "source_file" /\
     forall df, In df (parsed_frames directory_of_age_aliases) -> In c (columns df)) ->
  set_to_list (cc ∪ {["AGE"; "source_file"]}) ∈ permutations ["AGE"; "source_file"].
Proof.
  intros Hcc. apply permutations_Permutation.
  apply NoDup_Permutation.
  - apply (bool_decide_unpack _). by vm_compute.
  - apply NoDup_set_to_list.
  - intros c. rewrite !list_elem_of_In, in_final_cols, Hcc.
    assert (Hiff : In c ["AGE"; "source_file"] <-> c = "AGE" \/ c = "source_file").
    { cbn [In]. split; [intros [Hc|[Hc|[]]] | intros [Hc|Hc]]; auto. }
    rewrite Hiff. split; [tauto|].
    intros [[Hsf Hall] | Hc]; [|assumption].
    assert (H1 := Hall _ (or_introl eq_refl)).
    assert (H2 := Hall _ (or_intror (or_introl eq_refl))).
    vm_compute in H1, H2.
    destruct H1 as [H1|[H1|[H1|[]]]]; [by left | | by right].
    destruct H2 as [H2|[H2|[H2|[]]]]; congruence.
Qed.

(** C5 fails on the code.  The files [a.txt] (columns AGE2 and X) and
    [b.txt] (columns AGE3 and Y) share no column, and none either once
    the age label is set aside as the comment of line 33 says it is; yet
    the loader has renamed both aliases to [AGE] before it intersects,
    so it prints nothing and returns both rows under the columns [AGE]
    and [source_file] instead of the empty table. *)
Theorem loader_counts_renamed_age_as_common `{SetOrder} :
  parsed_entries directory_of_age_aliases <> [] /\
  ~ files_share_a_column directory_of_age_aliases /\
  (forall c, c <> "AGE" -> c <> "source_file" ->
     ~ forall df, In df (parsed_frames directory_of_age_aliases) -> In c (columns df)) /\
  exists out,
    combine_common_columns_with_age directory_of_age_aliases = ([], Ok out) /\
    out <> empty_frame /\
    (forall c, In c (columns out) <-> c = "AGE" \/ c = "source_file") /\
    map (fun r => cell r "AGE") (rows out) = [VNum 5; VNum 9] /\
    map (fun r => cell r "source_file") (rows out) = [VStr "a.txt"; VStr "b.txt"].
Proof.
  split; [discriminate|]. split; [|split].
  - intros (c & Hall).
    assert (H1 := Hall _ (or_introl eq_refl)).
    assert (H2 := Hall _ (or_intror (or_introl eq_refl))).
    vm_compute in H1, H2.
    destruct H1 as [<-|[<-|[]]]; destruct H2 as [H2|[H2|[]]]; discriminate.
  - intros c Hage Hsf Hall.
    assert (H1 := Hall _ (or_introl eq_refl)).
    assert (H2 := Hall _ (or_intror (or_introl eq_refl))).
    vm_compute in H1, H2.
    destruct H1 as [<-|[<-|[<-|[]]]]; try done.
    destruct H2 as [H2|[H2|[H2|[]]]]; discriminate.
  - destruct (loader_normal directory_of_age_aliases) as (cc & Hcc & Heq).
    { discriminate. }
    { exists "AGE". split; [discriminate|].
      intros df [<- | [<- | []]]; vm_compute; tauto. }
    rewrite Heq. apply final_cols_of_age_aliases in Hcc.
    change (failure_messages directory_of_age_aliases) with (@nil string).
    set (final_cols := set_to_list (cc ∪ {["AGE"; "source_file"]})) in *.
    clearbody final_cols. clear Heq.
    let v := eval vm_compute in (permutations ["AGE"; "source_file"]) in
    change (final_cols ∈ v) in Hcc.
    repeat (apply elem_of_cons in Hcc as [-> | Hcc]);
      try (by apply elem_of_nil in Hcc);
      (eexists; split; [vm_compute; reflexivity|];
       split; [discriminate|]; split; [|by vm_compute];
       intros c; simpl; intuition congruence).
Qed.

(** ** Unreadable files and the final table *)

Lemma setitem_scalar_well_formed (df : DataFrame) (c : string) (v : value) :
  well_formed df -> well_formed (setitem_scalar df c v).
Proof.
  unfold well_formed, setitem_scalar. cbn [rows columns]. intros Hwf.
  apply List.Forall_map. eapply Forall_impl; [exact Hwf|].
  intros r Hr. cbn beta in *. unfold set_cell, set_labels.
  destruct (has_col df c).
  - rewrite <- Hr, map_map. apply map_ext. intros [k w]. cbn [fst].
    by destruct (String.eqb k c).
  - by rewrite map_app, Hr.
Qed.

Lemma rename_well_formed (old new : string) (df : DataFrame) :
  well_formed df -> well_formed (rename old new df).
Proof.
  unfold well_formed, rename. cbn [rows columns]. intros Hwf.
  apply List.Forall_map. eapply Forall_impl; [exact Hwf|].
  intros r Hr. cbn beta in *. by rewrite <- Hr, !map_map.
Qed.

Lemma harmonize_well_formed (file : string) (df : DataFrame) :
  well_formed df -> well_formed (harmonize file df).
Proof.
  intros Hwf.
  pose proof (setitem_scalar_well_formed df "source_file" (VStr file) Hwf) as H0.
  unfold harmonize, age_column_candidates. cbn [rename_first_alias].
  destruct (has_col _ "AGE2"); [by apply rename_well_formed|].
  destruct (has_col _ "AGE3"); [by apply rename_well_formed | assumption].
Qed.

Lemma parsed_frames_well_formed (dir : directory) (df : DataFrame) :
  Forall (fun e => well_formed (snd e)) (parsed_entries dir) ->
  In df (parsed_frames dir) -> well_formed df.
Proof.
  intros Hwf Hdf. unfold parsed_frames in Hdf.
  apply in_map_iff in Hdf as (e & <- & He).
  apply harmonize_well_formed.
  rewrite Forall_forall in Hwf. apply Hwf. by apply list_elem_of_In.
Qed.

Lemma cell_absent_column (df : DataFrame) (r : row) (c : string) :
  well_formed df -> In r (rows df) -> has_col df c = false -> cell r c = VNaN.
Proof.
  intros Hwf Hr Hc. apply cell_no_key.
  unfold well_formed in Hwf. rewrite Forall_forall in Hwf.
  apply list_elem_of_In in Hr. specialize (Hwf r Hr). cbn beta in Hwf.
  by rewrite has_key_map_fst, Hwf.
Qed.

Lemma loader_cells `{SetOrder} (dir : directory) (out : DataFrame) :
  Forall (fun e => well_formed (snd e)) (parsed_entries dir) ->
  share_a_column (parsed_frames dir) ->
  snd (combine_common_columns_with_age dir) = Ok out ->
  exists image : DataFrame -> row -> row,
    rows out = flat_map (fun df => map (image df) (rows df)) (parsed_frames dir) /\
    forall df r c, In df (parsed_frames dir) -> In r (rows df) ->
                   In c (columns out) -> cell (image df r) c = cell r c.
Proof.
  intros Hwf Hshare Hout.
  destruct (loader_rows dir out Hshare Hout) as (image & Heq & Hcell).
  exists image. split; [assumption|].
  intros df r c Hdf Hr Hc. rewrite (Hcell _ _ _ Hc).
  destruct (has_col df c) eqn:E; [reflexivity|].
  symmetry. apply (cell_absent_column df); [|assumption..].
  by apply (parsed_frames_well_formed dir).
Qed.

Lemma passes_filters_same_cells (r r' : row) :
  cell r' "source_file" = cell r "source_file" ->
  cell r' "AGE" = cell r "AGE" ->
  cell r' "ALCEVER" = cell r "ALCEVER" ->
  passes_filters r' = passes_filters r.
Proof.
  intros Hsf Hage Halc.
  unfold passes_filters, keep_recent, keep_older, is_recent, alcever_kept.
  by rewrite Hsf, Hage, Halc.
Qed.

Lemma length_filter_split {A : Type} (a p q : A -> bool) (l : list A) :
  (forall x, p x = true -> q x = false) ->
  length (List.filter a (List.filter p l ++ List.filter q l))
  = length (List.filter (fun x => (p x || q x) && a x) l).
Proof.
  intros Hpq. rewrite List.filter_app, length_app.
  induction l as [|x l IH]; [reflexivity|]. cbn [List.filter].
  destruct (p x) eqn:Ep.
  - rewrite (Hpq x Ep). cbn [List.filter orb andb].
    destruct (a x); cbn [length]; lia.
  - destruct (q x); cbn [List.filter orb andb]; [|exact IH].
    destruct (a x); cbn [length]; lia.
Qed.

Lemma length_filter_images (image : DataFrame -> row -> row) (p : row -> bool)
    (frames : list DataFrame) :
  (forall df r, In df frames -> In r (rows df) -> p (image df r) = p r) ->
  length (List.filter p (flat_map (fun df => map (image df) (rows df)) frames))
  = length (List.filter p (flat_map rows frames)).
Proof.
  induction frames as [|df frames IH]; intros Hp; [reflexivity|].
  cbn [flat_map]. rewrite !List.filter_app, !length_app, IH.
  - f_equal. rewrite filter_map_comm, length_map. f_equal.
    apply filter_ext_in. intros r Hr. apply Hp; [by left | assumption].
  - intros df' r Hdf. apply Hp. by right.
Qed.

Lemma loader_output_shares `{SetOrder} (dir : directory) (out : DataFrame) :
  snd (combine_common_columns_with_age dir) = Ok out ->
  In "source_file" (columns out) ->
  share_a_column (parsed_frames dir).
Proof.
  intros Hout Hsf. apply (loader_nonempty_shares dir out Hout).
  by destruct (columns out).
Qed.

Lemma final_rows `{SetOrder} (dir : directory) (out : DataFrame) :
  Forall (fun e => well_formed (snd e)) (parsed_entries dir) ->
  snd (preprocess_data dir) = Ok out ->
  exists (L : DataFrame) (image : DataFrame -> row -> row) (labels : list string),
    snd (combine_common_columns_with_age dir) = Ok L /\
    rows L = flat_map (fun df => map (image df) (rows df)) (parsed_frames dir) /\
    (forall df r, In df (parsed_frames dir) -> In r (rows df) ->
       cell (image df r) "source_file" = cell r "source_file" /\
       cell (image df r) "AGE" = cell r "AGE" /\
       cell (image df r) "ALCEVER" = cell r "ALCEVER") /\
    In "source_file" labels /\ In "AGE" labels /\ In "ALCEVER" labels /\
    rows out = map (output_row labels)
                   (List.filter alcever_kept
                      (List.filter keep_recent (rows L) ++ List.filter keep_older (rows L))).
Proof.
  intros Hwf Hout.
  apply preprocess_data_inv in Hout as (L & HL & Hready & Hsf & Halc & ->).
  destruct Hready as (_ & Hage & _). apply has_unique_In in Hage.
  pose proof (loader_output_shares dir L HL Hsf) as Hshare.
  destruct (loader_cells dir L Hwf Hshare HL) as (image & Heq & Hcell).
  exists L, image, (List.filter has_prefix (columns L)).
  split; [assumption|]. split; [assumption|]. split.
  { intros df r Hdf Hr. repeat split; by apply Hcell. }
  repeat split; try (apply filter_In; by split).
Qed.

Lemma final_row_count `{SetOrder} (dir : directory) (out : DataFrame) :
  Forall (fun e => well_formed (snd e)) (parsed_entries dir) ->
  snd (preprocess_data dir) = Ok out ->
  length (rows out)
  = length (List.filter passes_filters (flat_map rows (parsed_frames dir))).
Proof.
  intros Hwf Hout.
  destruct (final_rows dir out Hwf Hout)
    as (L & image & labels & _ & HL & Hcell & _ & _ & _ & ->).
  rewrite length_map, HL.
  rewrite (length_filter_split alcever_kept keep_recent keep_older)
    by apply keep_recent_older_disjoint.
  apply (length_filter_images image passes_filters).
  intros df r Hdf Hr. destruct (Hcell df r Hdf Hr) as (Hsf & Hage & Halc).
  by apply passes_filters_same_cells.
Qed.

Lemma final_row_present `{SetOrder} (dir : directory) (out : DataFrame)
    (df : DataFrame) (r : row) :
  Forall (fun e => well_formed (snd e)) (parsed_entries dir) ->
  snd (preprocess_data dir) = Ok out ->
  In df (parsed_frames dir) -> In r (rows df) -> passes_filters r = true ->
  exists r', In r' (rows out) /\
             cell r' "source_file" = cell r "source_file" /\
             cell r' "AGE" = cell r "AGE" /\
             cell r' "ALCEVER" = cell r "ALCEVER".
Proof.
  intros Hwf Hout Hdf Hr Hpass.
  destruct (final_rows dir out Hwf Hout)
    as (L & image & labels & _ & HL & Hcell & Hsf & Hage & Halc & ->).
  destruct (Hcell df r Hdf Hr) as (Esf & Eage & Ealc).
  exists (output_row labels (image df r)). split.
  - apply in_map.
    rewrite <- (passes_filters_same_cells r (image df r) Esf Eage Ealc) in Hpass.
    unfold passes_filters in Hpass. apply andb_true_iff in Hpass as [Hkeep Hkept].
    apply filter_In. split; [|assumption].
    assert (Hin : In (image df r) (rows L)).
    { rewrite HL. apply in_flat_map. exists df. split; [assumption | by apply in_map]. }
    apply orb_true_iff in Hkeep as [Hk | Hk];
      apply in_app_iff; [left | right]; apply filter_In; by split.
  - rewrite !cell_output_row by (assumption || discriminate). by repeat split.
Qed.

Lemma NoDup_add_labels (acc cols : list string) :
  NoDup acc -> NoDup cols -> NoDup (add_labels acc cols).
Proof.
  intros Hacc Hcols. unfold add_labels. apply NoDup_app.
  split; [assumption|]. split.
  - intros c Hc Hc'. apply list_elem_of_In, filter_In in Hc' as [_ Hc'].
    apply negb_true_iff in Hc'. apply list_elem_of_In, existsb_eqb_In in Hc.
    congruence.
  - exact (sublist_NoDup _ _ Hcols (filter_sublist _ _)).
Qed.

Lemma NoDup_fold_add_labels (ls : list (list string)) (acc : list string) :
  NoDup acc -> Forall NoDup ls -> NoDup (fold_left add_labels ls acc).
Proof.
  intros Hacc Hls. revert acc Hacc.
  induction Hls as [|l ls Hl _ IH]; intros acc Hacc; [assumption|].
  cbn [fold_left]. apply IH. by apply NoDup_add_labels.
Qed.

Lemma concat_NoDup (frames : list DataFrame) (out : DataFrame) :
  Forall (fun df => NoDup (columns df)) frames ->
  concat frames = Ok out -> NoDup (columns out).
Proof.
  intros Hnd. unfold concat. destruct frames as [|df0 rest]; [discriminate|].
  destruct (forallb _ rest).
  - intros [= <-]. cbn [columns]. by apply Forall_cons_1 in Hnd as [Hnd _].
  - destruct (forallb _ (df0 :: rest)); [|discriminate].
    intros [= <-]. cbn [columns]. unfold union_labels.
    apply NoDup_fold_add_labels; [constructor|].
    by apply (List.Forall_map columns NoDup (df0 :: rest)).
Qed.

Lemma loader_columns_NoDup `{SetOrder} (dir : directory) (out : DataFrame) :
  Forall (fun df => NoDup (columns df)) (parsed_frames dir) ->
  snd (combine_common_columns_with_age dir) = Ok out -> NoDup (columns out).
Proof.
  intros Hnd. unfold combine_common_columns_with_age.
  rewrite loader_fold. cbn [diagnostics dfs common_cols app].
  destruct (parsed_frames dir) as [|df frames] eqn:E;
    [cbn [snd]; intros [= <-]; constructor|].
  destruct (fold_left intersect_step _ None) as [cc|];
    [|cbn [snd]; intros [= <-]; constructor].
  destruct (decide (cc = ∅)); [cbn [snd]; intros [= <-]; constructor|].
  cbn [snd]. rewrite project_and_concat_eq. apply concat_NoDup.
  apply List.Forall_map. eapply Forall_impl; [exact Hnd|].
  intros df' Hdf. cbn beta in *. unfold projected. cbn [columns].
  apply NoDup_project_labels; [|assumption].
  exact (sublist_NoDup _ _ (NoDup_set_to_list _) (filter_sublist _ _)).
Qed.

Lemma NoDup_has_unique (df : DataFrame) (c : string) :
  NoDup (columns df) -> In c (columns df) -> has_unique df c.
Proof.
  unfold has_unique. induction 1 as [|x l Hx Hl IH]; intros Hin; [done|].
  cbn [List.filter]. destruct (String.eqb_spec c x) as [<-|Hne].
  - f_equal. apply filter_nil_iff. intros y Hy.
    apply String.eqb_neq. intros <-. apply Hx. by apply list_elem_of_In.
  - apply IH. destruct Hin as [Hin|Hin]; [congruence | assumption].
Qed.

Lemma in_loaded_rows (image : DataFrame -> row -> row) (frames : list DataFrame)
    (r' : row) :
  In r' (flat_map (fun df => map (image df) (rows df)) frames) ->
  exists df r, In df frames /\ In r (rows df) /\ r' = image df r.
Proof.
  intros Hin. apply in_flat_map in Hin as (df & Hdf & Hin).
  apply in_map_iff in Hin as (r & <- & Hr). by exists df, r.
Qed.

Lemma parsed_frames_tagged (dir : directory) (df : DataFrame) (r : row) :
  Forall (fun e => well_formed (snd e)) (parsed_entries dir) ->
  In df (parsed_frames dir) -> In r (rows df) ->
  is_str (cell r "source_file") = true.
Proof.
  intros Hwf Hdf Hr. unfold parsed_frames in Hdf.
  apply in_map_iff in Hdf as ([file df0] & <- & He). cbn [fst snd] in *.
  rewrite Forall_forall in Hwf. apply list_elem_of_In in He.
  specialize (Hwf _ He). cbn [snd] in Hwf.
  pose proof (harmonize_tagged file df0 Hwf) as Htag.
  rewrite Forall_forall in Htag. apply list_elem_of_In in Hr.
  by rewrite (Htag r Hr).
Qed.

Lemma preprocess_data_total `{SetOrder} (dir : directory) :
  pipeline_ready dir -> exists out, snd (preprocess_data dir) = Ok out.
Proof.
  intros (Hwf & Hall & Hage).
  assert (Hnd : Forall (fun df => NoDup (columns df)) (parsed_frames dir)).
  { eapply Forall_impl; [exact Hall|]. by intros df (Hdf & _). }
  assert (Halc : forall df, In df (parsed_frames dir) -> In "ALCEVER" (columns df)).
  { intros df Hdf. rewrite Forall_forall in Hall.
    apply list_elem_of_In in Hdf. by destruct (Hall df Hdf) as (_ & Hdf' & _). }
  assert (Hnum : forall df r, In df (parsed_frames dir) -> In r (rows df) ->
                              is_str (cell r "AGE") = false).
  { intros df r Hdf Hr. rewrite Forall_forall in Hall.
    apply list_elem_of_In in Hdf. destruct (Hall df Hdf) as (_ & _ & Hrows).
    rewrite Forall_forall in Hrows. apply Hrows. by apply list_elem_of_In. }
  assert (Hshare : share_a_column (parsed_frames dir)).
  { exists "ALCEVER". by split. }
  assert (Hne : parsed_frames dir <> []).
  { intros E. rewrite E in Hage. by apply Exists_nil in Hage. }
  destruct (loader_total dir Hnd) as [L HL].
  pose proof (loader_columns_NoDup dir L Hnd HL) as HndL.
  pose proof (loader_normal_columns dir L Hne Hshare HL) as Hcols.
  destruct (loader_cells dir L Hwf Hshare HL) as (image & Heq & Hcell).
  assert (HsfL : In "source_file" (columns L)).
  { apply Hcols. left. apply parsed_frames_have_source_file. }
  assert (HageL : In "AGE" (columns L)).
  { apply Hcols. right. left. split; [reflexivity|].
    apply Exists_exists in Hage as (df & Hdf & Hdf').
    exists df. split; [by apply list_elem_of_In | assumption]. }
  assert (HalcL : In "ALCEVER" (columns L)).
  { apply Hcols. by left. }
  assert (Hready : age_filter_ready L).
  { split; [by apply NoDup_has_unique|]. split; [by apply NoDup_has_unique|].
    split; apply Forall_forall; intros r' Hr'; apply list_elem_of_In in Hr';
      rewrite Heq in Hr'; apply in_loaded_rows in Hr' as (df & r & Hdf & Hr & ->);
      rewrite Hcell by assumption.
    - by apply (parsed_frames_tagged dir df).
    - by apply (Hnum df). }
  rewrite preprocess_data_snd, HL. cbn [mbind result_bind].
  rewrite (filter_age_total L Hready). cbn [mbind result_bind].
  exists (cols_filtered (age_filtered L)). apply filter_cols_total.
  destruct Hready as (Hsf' & _ & Hstr' & _).
  split; [exact Hsf'|]. split; [by apply (NoDup_has_unique L)|].
  apply Forall_forall. intros r Hr. apply list_elem_of_In in Hr.
  apply in_age_filtered in Hr as [Hr _].
  rewrite Forall_forall in Hstr'. apply Hstr'. by apply list_elem_of_In.
Qed.


Lemma directory_with_broken_file_ready : pipeline_ready directory_with_broken_file.
Proof.
  split; [|split].
  - repeat (apply List.Forall_cons || apply List.Forall_nil || reflexivity).
  - repeat (apply List.Forall_cons;
            [split; [apply (bool_decide_unpack _); by vm_compute|];
             split; [vm_compute; tauto|];
             repeat (apply List.Forall_cons || apply List.Forall_nil || reflexivity)|]).
    apply List.Forall_nil.
  - apply Exists_cons_hd. vm_compute. tauto.
Qed.



(** * Further properties of the stages *)

(** ** Missing columns *)

Lemma getitem_absent (df : DataFrame) (c : string) (amb : exn) :
  ~ In c (columns df) -> getitem df c amb = Raise (KeyError c).
Proof.
  intros Hnot. unfold getitem.
  assert (E : List.filter (String.eqb c) (columns df) = []).
  { apply filter_nil_iff. intros x Hx.
    destruct (String.eqb_spec c x) as [->|Hne]; [by apply Hnot in Hx | reflexivity]. }
  by rewrite E.
Qed.

(** X1.  The age filter looks its two columns up by name: on a table
    without a [source_file] column it raises [KeyError] for that label,
    and on a table with one [source_file] column of strings but no AGE
    column it raises [KeyError] for AGE. *)
Theorem filter_age_missing_column (df : DataFrame) :
  (~ In "source_file" (columns df) ->
   filter_age df = Raise (KeyError "source_file")) /\
  (has_unique df "source_file" ->
   Forall (fun r => is_str (cell r "source_file") = true) (rows df) ->
   ~ In "AGE" (columns df) ->
   filter_age df = Raise (KeyError "AGE")).
Proof.
  split.
  - intros Hnot. unfold filter_age.
    rewrite (getitem_absent df "source_file") by assumption. reflexivity.
  - intros Hsrc Hstr Hnot. unfold filter_age.
    rewrite (getitem_unique _ _ _ Hsrc). simpl.
    rewrite str_accessor_strings by (by apply List.Forall_map). simpl.
    rewrite (getitem_absent df "AGE") by assumption. reflexivity.
Qed.

Lemma filter_age_missing_column_witness :
  filter_age empty_frame = Raise (KeyError "source_file") /\
  filter_age (mkDF ["source_file"; "ALCEVER"]
                   [[("source_file", VStr "old.txt"); ("ALCEVER", VNum 1)]])
  = Raise (KeyError "AGE").
Proof.
  split.
  - apply (filter_age_missing_column empty_frame). intros [].
  - apply (filter_age_missing_column
             (mkDF ["source_file"; "ALCEVER"]
                   [[("source_file", VStr "old.txt"); ("ALCEVER", VNum 1)]])).
    + reflexivity.
    + repeat constructor.
    + simpl. intros [H | [H | []]]; discriminate.
Defined.

(** X2.  The column/value filter needs [source_file] and ALCEVER: on a
    table without a [source_file] column it raises [KeyError] for that
    label, and on a table with one [source_file] column of strings but
    no ALCEVER column it raises [KeyError] for ALCEVER. *)
Theorem filter_cols_missing_column (df : DataFrame) :
  (~ In "source_file" (columns df) ->
   filter_cols df = Raise (KeyError "source_file")) /\
  (has_unique df "source_file" ->
   Forall (fun r => is_str (cell r "source_file") = true) (rows df) ->
   ~ In "ALCEVER" (columns df) ->
   filter_cols df = Raise (KeyError "ALCEVER")).
Proof.
  split.
  - intros Hnot. unfold filter_cols.
    rewrite select_columns_present
      by (intros c Hc; by apply filter_In in Hc as [Hc _]).
    simpl. rewrite (getitem_absent _ "source_file"); [reflexivity|].
    cbn [columns]. intros Hin. by apply in_project_labels in Hin as [_ Hin].
  - intros Hsrc Hstr Hnot. unfold filter_cols.
    set (labels := List.filter has_prefix (columns df)).
    assert (Hsrc' : In "source_file" labels).
    { apply filter_In. split; [by apply has_unique_In | reflexivity]. }
    rewrite select_columns_present
      by (intros c Hc; by apply filter_In in Hc as [Hc _]).
    simpl. rewrite getitem_unique; cycle 1.
    { unfold has_unique. cbn [columns]. apply project_labels_unique; [assumption|].
      unfold labels. by rewrite filter_filter_comm, Hsrc. }
    simpl. rewrite str_accessor_strings; cycle 1.
    { rewrite map_map. apply List.Forall_map.
      eapply Forall_impl; [exact Hstr|]. intros r Hr. simpl in Hr.
      by rewrite cell_project_row. }
    simpl. unfold labels. rewrite setitem_year
      by (unfold str_extract_year; by rewrite !length_map).
    fold labels. simpl. rewrite (getitem_absent _ "ALCEVER"); [reflexivity|].
    cbn [columns]. intros Hin. apply in_app_iff in Hin as [Hin | [Hin | []]].
    + by apply in_project_labels in Hin as [_ Hin].
    + discriminate.
Qed.

Lemma filter_cols_missing_column_witness :
  filter_cols empty_frame = Raise (KeyError "source_file") /\
  filter_cols (mkDF ["source_file"; "AGE"]
                    [[("source_file", VStr "old.txt"); ("AGE", VNum 9)]])
  = Raise (KeyError "ALCEVER").
Proof.
  split.
  - apply (filter_cols_missing_column empty_frame). intros [].
  - apply (filter_cols_missing_column
             (mkDF ["source_file"; "AGE"]
                   [[("source_file", VStr "old.txt"); ("AGE", VNum 9)]])).
    + reflexivity.
    + repeat constructor.
    + simpl. intros [H | [H | []]]; discriminate.
Defined.

(** ** Running the age filter twice *)

Lemma filter_idem {A : Type} (p : A -> bool) (l : list A) :
  List.filter p (List.filter p l) = List.filter p l.
Proof.
  induction l as [|x l IH]; [reflexivity|]. simpl.
  destruct (p x) eqn:Hp; simpl; rewrite ?Hp, IH; reflexivity.
Qed.

Lemma filter_disjoint_nil {A : Type} (p q : A -> bool) (l : list A) :
  (forall x, p x = true -> q x = false) -> List.filter q (List.filter p l) = [].
Proof.
  intros Hpq. apply filter_nil_iff. intros x Hx.
  apply filter_In in Hx as [_ Hx]. by apply Hpq.
Qed.

Lemma keep_older_recent_disjoint (r : row) :
  keep_older r = true -> keep_recent r = false.
Proof.
  unfold keep_recent, keep_older. destruct (is_recent r); simpl; congruence.
Qed.

Lemma age_filtered_idem (df : DataFrame) :
  age_filtered (age_filtered df) = age_filtered df.
Proof.
  unfold age_filtered. cbn [columns rows]. f_equal.
  rewrite !List.filter_app, !filter_idem.
  rewrite (filter_disjoint_nil keep_older keep_recent)
    by apply keep_older_recent_disjoint.
  rewrite (filter_disjoint_nil keep_recent keep_older)
    by apply keep_recent_older_disjoint.
  by rewrite app_nil_r.
Qed.

Lemma Forall_filter_app {A : Type} (P : A -> Prop) (p q : A -> bool) (l : list A) :
  Forall P l -> Forall P (List.filter p l ++ List.filter q l).
Proof.
  intros Hall. rewrite Forall_forall in Hall. apply Forall_forall. intros x Hx.
  apply Hall. apply list_elem_of_In. apply list_elem_of_In, in_app_iff in Hx.
  destruct Hx as [Hx | Hx]; by apply filter_In in Hx as [Hx _].
Qed.

Lemma age_filtered_ready (df : DataFrame) :
  age_filter_ready df -> age_filter_ready (age_filtered df).
Proof.
  intros (Hsrc & Hage & Hstr & Hnum). unfold age_filter_ready, has_unique.
  cbn [columns rows age_filtered].
  repeat split; try assumption; by apply Forall_filter_app.
Qed.

(** X3.  The age filter is idempotent: a table it returned passes
    through it unchanged, row order included. *)
Theorem filter_age_idempotent (df out : DataFrame) :
  filter_age df = Ok out -> filter_age out = Ok out.
Proof.
  intros Hout. apply filter_age_inv in Hout as [Hready ->].
  rewrite (filter_age_total _ (age_filtered_ready df Hready)).
  by rewrite age_filtered_idem.
Qed.

Lemma filter_age_idempotent_witness :
  filter_age (age_filtered frame_mixed_ages) = Ok (age_filtered frame_mixed_ages).
Proof.
  apply (filter_age_idempotent frame_mixed_ages). reflexivity.
Defined.

(** ** What the column/value filter leaves alone *)

(** X4.  The column/value filter never alters a cell it retains: its
    output rows correspond, in order, to a sub-list of the input rows,
    and every output column other than the derived [year] holds what
    the input row held; so no row is added or reordered. *)
Theorem filter_cols_keeps_retained_cells (df out : DataFrame) :
  filter_cols df = Ok out ->
  exists kept,
    sublist kept (rows df) /\
    Forall2 (fun r r' => forall c, In c (columns out) -> c <> "year" ->
                                   cell r' c = cell r c)
            kept (rows out).
Proof.
  intros Hout. apply filter_cols_inv in Hout as (_ & _ & ->).
  exists (List.filter alcever_kept (rows df)). split; [apply filter_sublist|].
  cbn [rows columns cols_filtered]. apply Forall2_map_same. intros r c Hc Hyear.
  apply in_app_iff in Hc as [Hc | [<- | []]]; [|done].
  apply in_project_labels in Hc as [Hc _]. by apply cell_output_row.
Qed.

Lemma filter_cols_keeps_retained_cells_witness :
  exists kept,
    sublist kept (rows frame_alcever_codes) /\
    Forall2 (fun r r' =>
               forall c, In c (columns (cols_filtered frame_alcever_codes)) ->
                         c <> "year" -> cell r' c = cell r c)
            kept (rows (cols_filtered frame_alcever_codes)).
Proof.
  apply (filter_cols_keeps_retained_cells frame_alcever_codes). reflexivity.
Defined.

(** ** The filters composed *)

Lemma in_cohort_range_same_cells (r r' : row) :
  cell r' "source_file" = cell r "source_file" ->
  cell r' "AGE" = cell r "AGE" ->
  in_cohort_range r -> in_cohort_range r'.
Proof.
  unfold in_cohort_range. intros Hsf Hage (s & q & Hs & Hq & Hrange).
  exists s, q. rewrite Hsf, Hage. by repeat split.
Qed.

(** X5.  Both filters hold of what the orchestrator returns: in every
    row of the final table the age is a number in the inclusive range of
    the row's cohort ([4,7] when the file name contains 2021, 2022 or
    2023, [7,13] otherwise) and ALCEVER is 1 or 2; the column/value
    filter does not disturb what the age filter established. *)
Theorem final_rows_pass_both_filters `{SetOrder} (dir : directory) (out : DataFrame) :
  snd (preprocess_data dir) = Ok out ->
  Forall (fun r => in_cohort_range r /\ alcever_is_1_or_2 r) (rows out).
Proof.
  intros Hout.
  apply preprocess_data_inv in Hout as (L & _ & Hready & Hsf & Halc & ->).
  destruct Hready as (_ & Hage & Hstr & _).
  cbn [rows cols_filtered columns age_filtered].
  set (labels := List.filter has_prefix (columns L)).
  assert (Hsf' : In "source_file" labels) by (apply filter_In; by split).
  assert (Halc' : In "ALCEVER" labels) by (apply filter_In; by split).
  assert (Hage' : In "AGE" labels).
  { apply filter_In. split; [by apply has_unique_In | reflexivity]. }
  apply Forall_forall. intros r' Hr'.
  apply list_elem_of_In, in_map_iff in Hr' as (r & <- & Hr).
  apply filter_In in Hr as [Hr Hk].
  change (In r (rows (age_filtered L))) in Hr.
  apply in_age_filtered in Hr as [Hr Hkeep]. split.
  - apply (in_cohort_range_same_cells r);
      [by apply cell_output_row | by apply cell_output_row |].
    apply keep_in_cohort_range; [|assumption].
    rewrite Forall_forall in Hstr. apply Hstr. by apply list_elem_of_In.
  - apply alcever_kept_spec. by rewrite alcever_kept_output_row.
Qed.

Lemma final_rows_pass_both_filters_witness :
  exists out,
    snd (preprocess_data scenario) = Ok out /\
    Forall (fun r => in_cohort_range r /\ alcever_is_1_or_2 r) (rows out).
Proof.
  destruct (round_trip_of_directory scenario)
    as (L & A & out & r1 & r2 & _ & _ & _ & _ & _ & _ & Hfinal & _);
    [by left | reflexivity |].
  exists out.
  assert (Hout : snd (preprocess_data scenario) = Ok out) by (by rewrite Hfinal).
  split; [assumption|]. by apply (final_rows_pass_both_filters scenario).
Defined.

(** ** The derived year *)

Lemma is_digit_spec (a : ascii) : is_digit a = true <-> In a ascii_digits.
Proof.
  destruct a as [[] [] [] [] [] [] [] []]; vm_compute;
    (split;
     [ intros Hd; try discriminate; repeat ((left; reflexivity) || right)
     | intros Hd; try reflexivity;
       repeat (destruct Hd as [Hd|Hd]; [discriminate|]); destruct Hd ]).
Qed.

Lemma year_here_spec (s : string) :
  year_here s = true <-> exists y, year_at s y.
Proof.
  unfold year_at. split.
  - destruct s as [|a [|b [|d1 [|d2 post]]]];
      try (destruct a as [[] [] [] [] [] [] [] []]; discriminate).
    + discriminate.
    + destruct a as [[] [] [] [] [] [] [] []]; try discriminate.
      destruct b as [[] [] [] [] [] [] [] []]; discriminate.
    + destruct a as [[] [] [] [] [] [] [] []]; try discriminate.
      destruct b as [[] [] [] [] [] [] [] []]; discriminate.
    + destruct a as [[] [] [] [] [] [] [] []]; try discriminate.
      destruct b as [[] [] [] [] [] [] [] []]; try discriminate.
      cbn [year_here]. intros Hd. apply andb_true_iff in Hd as [H1 H2].
      apply is_digit_spec in H1, H2.
      eexists _, d1, d2, post. by repeat split.
  - intros (y & d1 & d2 & post & -> & H1 & H2 & _).
    apply is_digit_spec in H1, H2.
    cbn [year_here]. by rewrite H1, H2.
Qed.

Lemma extract_year_of_match (s y : string) :
  year_at s y -> extract_year s = Some y.
Proof.
  intros Hy. assert (Hhere : year_here s = true) by (apply year_here_spec; by eauto).
  destruct Hy as (d1 & d2 & post & -> & H1 & H2 & ->).
  cbn [extract_year]. rewrite Hhere. by destruct post.
Qed.

Lemma extract_year_first (s : string) :
  first_year s (extract_year_value (VStr s)).
Proof.
  unfold first_year. cbn [extract_year_value]. induction s as [|a s IH].
  - right. split; [reflexivity|]. intros pre rest y Heq Hy.
    destruct Hy as (d1 & d2 & post & -> & _). destruct pre; discriminate.
  - cbn [extract_year]. destruct (year_here (String a s)) eqn:Hhere.
    + left. apply year_here_spec in Hhere as [y Hy].
      exists "", (String a s), y.
      split; [reflexivity|]. split; [assumption|]. split.
      { destruct Hy as (d1 & d2 & post & E & _ & _ & ->). rewrite E.
        by destruct post. }
      intros pre1 pre2 Hpre Hne. by destruct pre1, pre2.
    + destruct IH as [(pre & rest & y & -> & Hy & Hv & Hfirst) | [Hv Hnone]].
      * left. exists (String a pre), rest, y.
        repeat split; [assumption | assumption |].
        intros pre1 pre2 Hpre Hne y' Hy'. destruct pre1 as [|b pre1].
        -- change (String a pre = pre2) in Hpre. subst pre2.
           assert (Hh : year_here (String a pre +:+ rest) = true)
             by (apply year_here_spec; by eauto).
           change (year_here (String a (pre +:+ rest)) = true) in Hh. congruence.
        -- change (String a pre = String b (pre1 +:+ pre2)) in Hpre.
           injection Hpre as _ Hpre.
           by apply (Hfirst pre1 pre2 Hpre Hne y').
      * right. split; [assumption|]. intros pre rest y Heq Hy.
        destruct pre as [|b pre].
        -- change (String a s = rest) in Heq. subst rest.
           assert (Hh : year_here (String a s) = true)
             by (apply year_here_spec; by eauto).
           congruence.
        -- change (String a s = String b (pre +:+ rest)) in Heq.
           injection Heq as _ Heq.
           by apply (Hnone pre rest y Heq).
Qed.

Lemma has_key_project_row_absent (labels : list string) (r : row) (c : string) :
  ~ In c labels -> has_key (project_row labels r) c = false.
Proof.
  unfold has_key, project_row. intros Hnot.
  apply existsb_false_Forall, Forall_forall. intros [k v] Hkv.
  apply list_elem_of_In, in_flat_map in Hkv as (l & Hl & Hkv).
  apply filter_In in Hkv as [_ Hkv]. cbn [fst] in *.
  apply String.eqb_eq in Hkv as <-.
  destruct (String.eqb_spec l c) as [->|Hne]; [done | reflexivity].
Qed.

Lemma cell_output_row_year (labels : list string) (r : row) :
  ~ In "year" labels ->
  cell (output_row labels r) "year" = extract_year_value (cell r "source_file").
Proof.
  intros Hnot. unfold output_row.
  apply (cell_set_absent (project_row labels r) "year").
  by apply has_key_project_row_absent.
Qed.

(** X6.  The derived column, for file names written in ASCII: in every
    row the column/value filter returns, [year] is computed from that
    row's own [source_file]: when the file name contains 2, 0 and two
    of the digits 0 to 9 in a row, [year] is the leftmost such four
    characters, as a string; otherwise, and for a missing or non-text
    file name, [year] is missing. *)
Theorem year_is_first_20dd_of_file_name (df out : DataFrame) :
  Forall (fun r => forall file, cell r "source_file" = VStr file ->
                                is_ascii_text file = true) (rows df) ->
  filter_cols df = Ok out ->
  Forall (fun r => match cell r "source_file" with
                   | VStr file => first_year file (cell r "year")
                   | _ => cell r "year" = VNaN
                   end) (rows out).
Proof.
  intros _ Hout. apply filter_cols_inv in Hout as (Hsf & _ & ->).
  cbn [rows cols_filtered]. set (labels := List.filter has_prefix (columns df)).
  assert (Hsf' : In "source_file" labels) by (apply filter_In; by split).
  assert (Hyear : ~ In "year" labels).
  { intros Hin. apply filter_In in Hin as [_ Hin]. discriminate. }
  apply Forall_forall. intros r' Hr'.
  apply list_elem_of_In, in_map_iff in Hr' as (r & <- & _).
  rewrite cell_output_row by (assumption || discriminate).
  rewrite cell_output_row_year by assumption.
  destruct (cell r "source_file") as [q|file|]; [reflexivity | | reflexivity].
  apply extract_year_first.
Qed.

Lemma year_is_first_20dd_of_file_name_witness :
  Forall (fun r => match cell r "source_file" with
                   | VStr file => first_year file (cell r "year")
                   | _ => cell r "year" = VNaN
                   end) (rows (cols_filtered frame_alcever_codes)).
Proof.
  apply (year_is_first_20dd_of_file_name frame_alcever_codes).
  - repeat (apply List.Forall_cons; [by intros file [= <-]|]). apply List.Forall_nil.
  - reflexivity.
Defined.

(** ** Rows through the loader *)

Lemma length_flat_map_frames (image : DataFrame -> row -> row)
    (entries : list (string * DataFrame)) :
  length (flat_map (fun df => map (image df) (rows df))
                   (map (fun e => harmonize (fst e) (snd e)) entries))
  = length (flat_map (fun e => rows (snd e)) entries).
Proof.
  induction entries as [|[file df0] entries IH]; [reflexivity|].
  cbn [map flat_map fst snd]. rewrite !length_app, IH.
  by rewrite length_map, harmonize_length.
Qed.

(** X7.  The loader neither loses nor repeats a row: when the parsed
    files share a column, its output has exactly as many rows as the
    parsed files have together. *)
Theorem loader_row_count `{SetOrder} (dir : directory) (out : DataFrame) :
  share_a_column (parsed_frames dir) ->
  snd (combine_common_columns_with_age dir) = Ok out ->
  length (rows out) = length (flat_map (fun e => rows (snd e)) (parsed_entries dir)).
Proof.
  intros Hshare Hout.
  destruct (loader_rows dir out Hshare Hout) as (image & -> & _).
  apply length_flat_map_frames.
Qed.

Lemma loader_row_count_witness :
  exists out,
    snd (combine_common_columns_with_age directory_with_broken_file) = Ok out /\
    length (rows out) = 2.
Proof.
  destruct (loader_total directory_with_broken_file) as [out Hout].
  { repeat (apply List.Forall_cons; [apply (bool_decide_unpack _); by vm_compute|]).
    apply List.Forall_nil. }
  exists out. split; [assumption|].
  exact (loader_row_count directory_with_broken_file out
           scenario_shares_a_column Hout).
Defined.

Lemma in_tagged_columns (df : DataFrame) (c : string) (v : value) :
  In c (columns (setitem_scalar df "source_file" v)) <->
  In c (columns df) \/ c = "source_file".
Proof.
  unfold setitem_scalar, set_labels. cbn [columns].
  destruct (has_col df "source_file") eqn:E.
  - apply has_col_In in E. split; [intros Hc; by left|]. by intros [Hc | ->].
  - rewrite in_app_iff. split.
    + intros [Hc | [<- | []]]; [by left | by right].
    + intros [Hc | ->]; [by left | right; by left].
Qed.

Lemma in_renamed_columns (old c : string) (cols : list string) :
  In old cols -> old <> "AGE" ->
  In c (map (rename_label old "AGE") cols) <->
  c = "AGE" \/ (In c cols /\ c <> old).
Proof.
  intros Hold Hne. rewrite in_map_iff. unfold rename_label. split.
  - intros (k & <- & Hk). destruct (String.eqb_spec k old) as [->|Hk'];
      [by left | right; by split].
  - intros [-> | [Hc Hc']].
    + exists old. by rewrite String.eqb_refl.
    + exists c. split; [|assumption]. by destruct (String.eqb_spec c old).
Qed.

Lemma harmonize_has_age (file : string) (df : DataFrame) :
  In "AGE" (columns (harmonize file df)) <->
  In "AGE" (columns df) \/ In "AGE2" (columns df) \/ In "AGE3" (columns df).
Proof.
  unfold harmonize, age_column_candidates. cbn [rename_first_alias].
  set (tagged := setitem_scalar df "source_file" (VStr file)).
  assert (Htag : forall c, c <> "source_file" ->
                           In c (columns tagged) <-> In c (columns df)).
  { intros c Hc. unfold tagged. rewrite in_tagged_columns. tauto. }
  destruct (has_col tagged "AGE2") eqn:E2.
  { apply has_col_In in E2. cbn [rename columns].
    rewrite in_renamed_columns by (assumption || discriminate).
    apply Htag in E2; [|discriminate]. tauto. }
  assert (N2 : ~ In "AGE2" (columns df)).
  { rewrite <- Htag by discriminate. rewrite <- has_col_In. congruence. }
  destruct (has_col tagged "AGE3") eqn:E3.
  { apply has_col_In in E3. cbn [rename columns].
    rewrite in_renamed_columns by (assumption || discriminate).
    apply Htag in E3; [|discriminate]. tauto. }
  assert (N3 : ~ In "AGE3" (columns df)).
  { rewrite <- Htag by discriminate. rewrite <- has_col_In. congruence. }
  rewrite Htag by discriminate. tauto.
Qed.

Lemma keep_numeric_age (r : row) :
  keep_recent r || keep_older r = true -> exists q, cell r "AGE" = VNum q.
Proof.
  unfold keep_recent, keep_older, in_range.
  destruct (cell r "AGE") as [q| |]; [by eauto | |];
    rewrite !andb_false_r; discriminate.
Qed.

(** X8.  A file without an age column contributes nothing to the final
    table: every row the orchestrator returns carries the name of a
    parsed file that has a column AGE, AGE2 or AGE3.  (The rows of a
    file with none of them get a missing AGE in the loader and fail
    both range tests.) *)
Theorem surviving_rows_come_from_files_with_age `{SetOrder}
    (dir : directory) (out : DataFrame) :
  Forall (fun e => well_formed (snd e)) (parsed_entries dir) ->
  snd (preprocess_data dir) = Ok out ->
  Forall (fun r' =>
            exists file df0,
              In (file, df0) (parsed_entries dir) /\
              cell r' "source_file" = VStr file /\
              (In "AGE" (columns df0) \/ In "AGE2" (columns df0) \/
               In "AGE3" (columns df0)))
         (rows out).
Proof.
  intros Hwf Hout.
  apply preprocess_data_inv in Hout as (L & HL & Hready & Hsf & _ & ->).
  destruct Hready as (_ & Hage & _ & _). apply has_unique_In in Hage.
  cbn [rows cols_filtered columns age_filtered].
  set (labels := List.filter has_prefix (columns L)).
  assert (Hsf' : In "source_file" labels) by (apply filter_In; by split).
  assert (HLne : columns L <> []) by (by destruct (columns L)).
  destruct (loader_nonempty_shares dir L HL HLne) as [_ Hshare].
  destruct (loader_rows dir L Hshare HL) as (image & Heq & Hcell).
  apply Forall_forall. intros r' Hr'.
  apply list_elem_of_In, in_map_iff in Hr' as (rA & <- & HrA).
  apply filter_In in HrA as [HrA _].
  change (In rA (rows (age_filtered L))) in HrA.
  apply in_age_filtered in HrA as [HrA Hkeep].
  apply keep_numeric_age in Hkeep as [q Hq].
  rewrite Heq in HrA. apply in_flat_map in HrA as (df & Hdf & HrA).
  apply in_map_iff in HrA as (r & <- & Hr).
  unfold parsed_frames in Hdf. apply in_map_iff in Hdf as ([file df0] & <- & He).
  cbn [fst snd] in *. exists file, df0. split; [assumption|]. split.
  - rewrite cell_output_row by (assumption || discriminate).
    rewrite (Hcell _ _ _ Hsf).
    pose proof (harmonize_has_source_file file df0) as Hin.
    apply has_col_In in Hin. rewrite Hin.
    rewrite Forall_forall in Hwf. apply list_elem_of_In in He.
    specialize (Hwf _ He). cbn [snd] in Hwf.
    pose proof (harmonize_tagged file df0 Hwf) as Htag.
    rewrite Forall_forall in Htag. apply Htag. by apply list_elem_of_In.
  - apply (harmonize_has_age file). apply has_col_In.
    rewrite (Hcell _ _ _ Hage) in Hq.
    by destruct (has_col (harmonize file df0) "AGE").
Qed.

Lemma surviving_rows_come_from_files_with_age_witness :
  exists out,
    snd (preprocess_data scenario) = Ok out /\
    Forall (fun r' =>
              exists file df0,
                In (file, df0) (parsed_entries scenario) /\
                cell r' "source_file" = VStr file /\
                (In "AGE" (columns df0) \/ In "AGE2" (columns df0) \/
                 In "AGE3" (columns df0)))
           (rows out).
Proof.
  destruct (round_trip_of_directory scenario)
    as (L & A & out & r1 & r2 & _ & _ & _ & _ & _ & _ & Hfinal & _);
    [by left | reflexivity |].
  exists out.
  assert (Hout : snd (preprocess_data scenario) = Ok out) by (by rewrite Hfinal).
  split; [assumption|].
  exact (surviving_rows_come_from_files_with_age scenario out
           scenario_well_formed Hout).
Defined.

(** ** The order of the listing *)

Lemma in_parsed_entries (dir : directory) (file : string) (df0 : DataFrame) :
  In (file, df0) (parsed_entries dir) <->
  In (file, Parsed df0) dir /\ selected file = true.
Proof.
  unfold parsed_entries. rewrite in_flat_map. split.
  - intros ([f rd] & Hin & Hsel). destruct rd as [df|msg]; [|destruct Hsel].
    destruct (selected f) eqn:E; [|destruct Hsel].
    destruct Hsel as [[= -> ->] | []]. by split.
  - intros [Hin Hsel]. exists (file, Parsed df0). split; [assumption|].
    rewrite Hsel. by left.
Qed.

Lemma in_parsed_frames_perm (dir1 dir2 : directory) (df : DataFrame) :
  dir1 ≡ₚ dir2 -> In df (parsed_frames dir1) -> In df (parsed_frames dir2).
Proof.
  intros Hperm. unfold parsed_frames. rewrite !in_map_iff.
  intros ([file df0] & <- & He). exists (file, df0). split; [reflexivity|].
  apply in_parsed_entries in He as [He Hsel]. apply in_parsed_entries.
  split; [|assumption]. by apply (Permutation_in _ Hperm).
Qed.

Lemma loader_columns_char `{SetOrder} (dir : directory) (out : DataFrame) :
  snd (combine_common_columns_with_age dir) = Ok out ->
  forall c, In c (columns out) <->
            parsed_frames dir <> [] /\ share_a_column (parsed_frames dir) /\
            harmonized_label (parsed_frames dir) c.
Proof.
  intros Hout c. split.
  - intros Hc. assert (Hne : columns out <> []) by (by destruct (columns out)).
    destruct (loader_nonempty_shares dir out Hout Hne) as [Hfr Hshare].
    split; [assumption|]. split; [assumption|].
    by apply (loader_normal_columns dir out Hfr Hshare Hout).
  - intros (Hfr & Hshare & Hc).
    by apply (loader_normal_columns dir out Hfr Hshare Hout).
Qed.

Lemma harmonized_label_by_members (fr1 fr2 : list DataFrame) (c : string) :
  (forall df, In df fr1 <-> In df fr2) ->
  fr1 <> [] /\ share_a_column fr1 /\ harmonized_label fr1 c ->
  fr2 <> [] /\ share_a_column fr2 /\ harmonized_label fr2 c.
Proof.
  intros Hmem (Hne & (c0 & Hc0 & Hall0) & Hlab). split.
  { destruct fr1 as [|df fr1]; [done|].
    intros ->. apply (proj1 (Hmem df)). by left. }
  split.
  { exists c0. split; [assumption|]. intros df Hdf. by apply Hall0, Hmem. }
  destruct Hlab as [Hall | [[-> (df & Hdf & Hin)] | [-> (df & Hdf & Hin)]]].
  - left. intros df Hdf. by apply Hall, Hmem.
  - right. left. split; [reflexivity|]. exists df. split; [by apply Hmem | assumption].
  - right. right. split; [reflexivity|]. exists df.
    split; [by apply Hmem | assumption].
Qed.

(** X9.  The set of columns the loader returns depends neither on the
    order in which the directory is listed nor on the order in which the
    set of final columns is listed: two runs on listings that are
    permutations of each other return tables with the same column
    labels. *)
Theorem loader_columns_do_not_depend_on_order (O1 O2 : SetOrder)
    (dir1 dir2 : directory) (out1 out2 : DataFrame) :
  dir1 ≡ₚ dir2 ->
  snd (@combine_common_columns_with_age O1 dir1) = Ok out1 ->
  snd (@combine_common_columns_with_age O2 dir2) = Ok out2 ->
  forall c, In c (columns out1) <-> In c (columns out2).
Proof.
  intros Hperm Hout1 Hout2 c.
  rewrite (loader_columns_char dir1 out1 Hout1 c).
  rewrite (loader_columns_char dir2 out2 Hout2 c).
  assert (Hmem : forall df, In df (parsed_frames dir1) <-> In df (parsed_frames dir2)).
  { intros df. split; apply in_parsed_frames_perm; [assumption | by symmetry]. }
  split; apply harmonized_label_by_members; [assumption|].
  intros df. by symmetry.
Qed.

Lemma loader_columns_do_not_depend_on_order_witness :
  exists out1 out2,
    snd (combine_common_columns_with_age scenario) = Ok out1 /\
    snd (combine_common_columns_with_age scenario_reversed) = Ok out2 /\
    forall c, In c (columns out1) <-> In c (columns out2).
Proof.
  destruct (loader_total scenario) as [out1 Hout1].
  { repeat (apply List.Forall_cons; [apply (bool_decide_unpack _); by vm_compute|]).
    apply List.Forall_nil. }
  destruct (loader_total scenario_reversed) as [out2 Hout2].
  { repeat (apply List.Forall_cons; [apply (bool_decide_unpack _); by vm_compute|]).
    apply List.Forall_nil. }
  exists out1, out2. split; [assumption|]. split; [assumption|].
  apply (loader_columns_do_not_depend_on_order
           elements_order elements_order scenario scenario_reversed);
    [apply perm_swap | assumption | assumption].
Defined.

(** ** Which entries are read *)

Lemma string_length_app (s t : string) :
  String.length (s +:+ t) = String.length s + String.length t.
Proof.
  induction s as [|a s IH]; [reflexivity|].
  change (S (String.length (s +:+ t)) = S (String.length s + String.length t)).
  by rewrite IH.
Qed.

Lemma substring_whole (s : string) : String.substring 0 (String.length s) s = s.
Proof.
  induction s as [|a s IH]; [reflexivity|].
  change (String a (String.substring 0 (String.length s) s) = String a s).
  by rewrite IH.
Qed.

Lemma substring_after (pre s : string) (k : nat) :
  String.substring (String.length pre) k (pre +:+ s) = String.substring 0 k s.
Proof. induction pre as [|a pre IH]; [reflexivity|]. exact IH. Qed.

Lemma substring_split (s : string) (m : nat) :
  m <= String.length s ->
  s = String.substring 0 m s +:+ String.substring m (String.length s - m) s.
Proof.
  revert m. induction s as [|a s IH]; intros m Hm.
  - change (m <= 0) in Hm. assert (m = 0) as -> by lia. reflexivity.
  - destruct m as [|m].
    + change (String a s = String a (String.substring 0 (String.length s) s)).
      by rewrite substring_whole.
    + change (S m <= S (String.length s)) in Hm.
      change (String a s = String a (String.substring 0 m s
                +:+ String.substring m (String.length s - m) s)).
      f_equal. apply IH. lia.
Qed.

Lemma endswith_spec (s suf : string) :
  endswith s suf = true <-> exists pre, s = pre +:+ suf.
Proof.
  unfold endswith. rewrite andb_true_iff, Nat.leb_le, String.eqb_eq. split.
  - intros [Hle Hsuf].
    exists (String.substring 0 (String.length s - String.length suf) s).
    pose proof (substring_split s (String.length s - String.length suf)) as Hsp.
    replace (String.length s - (String.length s - String.length suf))
      with (String.length suf) in Hsp by lia.
    rewrite Hsuf in Hsp. apply Hsp. lia.
  - intros [pre ->]. rewrite string_length_app. split; [lia|].
    replace (String.length pre + String.length suf - String.length suf)
      with (String.length pre) by lia.
    by rewrite substring_after, substring_whole.
Qed.

Lemma selected_spec (file : string) :
  selected file = true <->
  exists stem, file = stem +:+ ".txt" \/ file = stem +:+ ".tsv".
Proof.
  unfold selected. rewrite orb_true_iff, !endswith_spec. split.
  - intros [[stem Hs] | [stem Hs]]; exists stem; by auto.
  - intros [stem [Hs | Hs]]; [left | right]; by exists stem.
Qed.

Lemma parsed_entries_selected_only (dir : directory) :
  parsed_entries (selected_only dir) = parsed_entries dir.
Proof.
  induction dir as [|[file rd] dir IH]; [reflexivity|].
  unfold selected_only in *. cbn [List.filter fst].
  destruct (selected file) eqn:E.
  - rewrite !parsed_entries_cons, E. by rewrite IH.
  - rewrite parsed_entries_cons, E, IH. by destruct rd.
Qed.

Lemma failure_messages_selected_only (dir : directory) :
  failure_messages (selected_only dir) = failure_messages dir.
Proof.
  induction dir as [|[file rd] dir IH]; [reflexivity|].
  unfold selected_only, failure_messages in *. cbn [List.filter fst flat_map].
  destruct (selected file) eqn:E.
  - cbn [flat_map]. rewrite E. by rewrite IH.
  - rewrite IH. by destruct rd.
Qed.

Lemma loader_by_parts `{SetOrder} (dir1 dir2 : directory) :
  failure_messages dir1 = failure_messages dir2 ->
  parsed_frames dir1 = parsed_frames dir2 ->
  combine_common_columns_with_age dir1 = combine_common_columns_with_age dir2.
Proof.
  intros Hlog Hfr. unfold combine_common_columns_with_age.
  rewrite !loader_fold. cbn [diagnostics dfs common_cols app].
  by rewrite Hlog, Hfr.
Qed.

(** X10.  Only entries whose name ends in [.txt] or [.tsv] (with that
    very spelling) are read.  Every other entry of the directory is
    ignored altogether: it is not parsed, it produces no diagnostic,
    and the loader and the orchestrator print and return what they
    would without it. *)
Theorem only_txt_and_tsv_entries_count `{SetOrder} (dir : directory) :
  (forall file, selected file = true <->
                exists stem, file = stem +:+ ".txt" \/ file = stem +:+ ".tsv") /\
  combine_common_columns_with_age dir
  = combine_common_columns_with_age (selected_only dir) /\
  preprocess_data dir = preprocess_data (selected_only dir).
Proof.
  assert (E : combine_common_columns_with_age dir
              = combine_common_columns_with_age (selected_only dir)).
  { apply loader_by_parts.
    - by rewrite failure_messages_selected_only.
    - unfold parsed_frames. by rewrite parsed_entries_selected_only. }
  split; [apply selected_spec|]. split; [assumption|].
  unfold preprocess_data. by rewrite E.
Qed.

(** ** The age alias *)

Lemma cell_set_other (present : bool) (c c' : string) (v : value) (r : row) :
  c' <> c -> cell (set_cell present c v r) c' = cell r c'.
Proof.
  intros Hne. unfold set_cell. destruct present.
  - induction r as [|[k w] r IH]; [reflexivity|]. cbn [map fst cell].
    destruct (String.eqb_spec k c) as [->|Hk]; cbn [cell fst].
    + destruct (String.eqb_spec c c') as [->|_]; [done | exact IH].
    + by rewrite IH.
  - apply cell_snoc_ne. congruence.
Qed.

Lemma has_key_set_other (present : bool) (c c' : string) (v : value) (r : row) :
  c' <> c -> has_key (set_cell present c v r) c' = has_key r c'.
Proof.
  intros Hne. unfold set_cell, has_key. destruct present.
  - induction r as [|[k w] r IH]; [reflexivity|]. cbn [map existsb fst].
    rewrite IH. by destruct (String.eqb_spec k c).
  - rewrite existsb_app. cbn [existsb fst].
    destruct (String.eqb_spec c c') as [->|_]; [done|]. by rewrite !orb_false_r.
Qed.

Lemma cell_rename_new (old new : string) (r : row) :
  has_key r new = false ->
  cell (map (fun kv => (rename_label old new (fst kv), snd kv)) r) new = cell r old.
Proof.
  unfold has_key. induction r as [|[k v] r IH]; [reflexivity|].
  cbn [map existsb fst snd cell]. intros Hk.
  apply orb_false_iff in Hk as [Hk Hrest]. unfold rename_label at 1.
  destruct (String.eqb_spec k old) as [->|Hold].
  - by rewrite String.eqb_refl.
  - rewrite Hk. by apply IH.
Qed.

Lemma Forall2_map_in {A B : Type} (R : A -> B -> Prop) (f : A -> B) (l : list A) :
  (forall x, In x l -> R x (f x)) -> Forall2 R l (map f l).
Proof.
  induction l as [|x l IH]; intros HR; [constructor|].
  cbn [map]. constructor; [apply HR; by left|].
  apply IH. intros y Hy. apply HR. by right.
Qed.

Lemma harmonize_first_alias (file : string) (df : DataFrame) :
  In "AGE2" (columns df) ->
  harmonize file df
  = rename "AGE2" "AGE" (setitem_scalar df "source_file" (VStr file)).
Proof.
  intros H2. unfold harmonize, age_column_candidates. cbn [rename_first_alias].
  assert (E : has_col (setitem_scalar df "source_file" (VStr file)) "AGE2" = true).
  { apply has_col_In, in_tagged_columns. by left. }
  by rewrite E.
Qed.

Lemma harmonize_second_alias (file : string) (df : DataFrame) :
  ~ In "AGE2" (columns df) -> In "AGE3" (columns df) ->
  harmonize file df
  = rename "AGE3" "AGE" (setitem_scalar df "source_file" (VStr file)).
Proof.
  intros N2 H3. unfold harmonize, age_column_candidates. cbn [rename_first_alias].
  assert (E2 : has_col (setitem_scalar df "source_file" (VStr file)) "AGE2" = false).
  { destruct (has_col _ "AGE2") eqn:E; [|reflexivity].
    apply has_col_In, in_tagged_columns in E as [E | E]; [done | discriminate]. }
  assert (E3 : has_col (setitem_scalar df "source_file" (VStr file)) "AGE3" = true).
  { apply has_col_In, in_tagged_columns. by left. }
  by rewrite E2, E3.
Qed.

Lemma harmonize_no_alias (file : string) (df : DataFrame) :
  ~ In "AGE2" (columns df) -> ~ In "AGE3" (columns df) ->
  harmonize file df = setitem_scalar df "source_file" (VStr file).
Proof.
  intros N2 N3. unfold harmonize, age_column_candidates. cbn [rename_first_alias].
  assert (E2 : has_col (setitem_scalar df "source_file" (VStr file)) "AGE2" = false).
  { destruct (has_col _ "AGE2") eqn:E; [|reflexivity].
    apply has_col_In, in_tagged_columns in E as [E | E]; [done | discriminate]. }
  assert (E3 : has_col (setitem_scalar df "source_file" (VStr file)) "AGE3" = false).
  { destruct (has_col _ "AGE3") eqn:E; [|reflexivity].
    apply has_col_In, in_tagged_columns in E as [E | E]; [done | discriminate]. }
  by rewrite E2, E3.
Qed.

Lemma renamed_alias_cells (old file : string) (df : DataFrame) :
  well_formed df -> ~ In "AGE" (columns df) ->
  old <> "source_file" ->
  Forall2 (fun r r' => cell r' "AGE" = cell r old)
          (rows df)
          (rows (rename old "AGE" (setitem_scalar df "source_file" (VStr file)))).
Proof.
  intros Hwf Hage Hold. unfold rename, setitem_scalar. cbn [rows].
  rewrite map_map. apply Forall2_map_in. intros r Hr.
  unfold well_formed in Hwf. rewrite Forall_forall in Hwf.
  apply list_elem_of_In in Hr. specialize (Hwf r Hr).
  rewrite cell_rename_new.
  - by apply cell_set_other.
  - rewrite has_key_set_other by discriminate.
    rewrite has_key_map_fst, Hwf.
    destruct (existsb (String.eqb "AGE") (columns df)) eqn:E; [|reflexivity].
    by apply existsb_eqb_In in E.
Qed.

Lemma renamed_other_cells (old c file : string) (df : DataFrame) :
  c <> old -> c <> "AGE" -> c <> "source_file" ->
  Forall2 (fun r r' => cell r' c = cell r c)
          (rows df)
          (rows (rename old "AGE" (setitem_scalar df "source_file" (VStr file)))).
Proof.
  intros Hold Hage Hsf. unfold rename, setitem_scalar. cbn [rows].
  rewrite map_map. apply Forall2_map_same. intros r.
  rewrite cell_rename by assumption. by apply cell_set_other.
Qed.

(** X11.  The age alias is renamed first match first.  For a
    rectangular parsed table without a column AGE: when it has AGE2, the
    harmonized table holds under AGE what the file held under AGE2 and
    has no AGE2 column left, while a column AGE3 of the same file keeps
    its name and its values; when it has AGE3 and no AGE2, AGE holds
    what the file held under AGE3; when it has neither, nothing but the
    provenance column is touched. *)
Theorem age_alias_renamed_first_match_first (file : string) (df : DataFrame) :
  well_formed df -> ~ In "AGE" (columns df) ->
  (In "AGE2" (columns df) ->
   Forall2 (fun r r' => cell r' "AGE" = cell r "AGE2")
           (rows df) (rows (harmonize file df)) /\
   ~ In "AGE2" (columns (harmonize file df)) /\
   (In "AGE3" (columns df) ->
    In "AGE3" (columns (harmonize file df)) /\
    Forall2 (fun r r' => cell r' "AGE3" = cell r "AGE3")
            (rows df) (rows (harmonize file df)))) /\
  (~ In "AGE2" (columns df) -> In "AGE3" (columns df) ->
   Forall2 (fun r r' => cell r' "AGE" = cell r "AGE3")
           (rows df) (rows (harmonize file df)) /\
   ~ In "AGE3" (columns (harmonize file df))) /\
  (~ In "AGE2" (columns df) -> ~ In "AGE3" (columns df) ->
   harmonize file df = setitem_scalar df "source_file" (VStr file) /\
   ~ In "AGE" (columns (harmonize file df))).
Proof.
  intros Hwf Hage. split; [|split].
  - intros H2. rewrite (harmonize_first_alias file df H2).
    assert (Htag : In "AGE2" (columns (setitem_scalar df "source_file" (VStr file))))
      by (apply in_tagged_columns; by left).
    split; [by apply renamed_alias_cells|]. split.
    + cbn [rename columns]. rewrite in_renamed_columns by (assumption || discriminate).
      intros [Heq | [_ Hne]]; [discriminate | done].
    + intros H3. split; [|by apply renamed_other_cells].
      cbn [rename columns]. rewrite in_renamed_columns by (assumption || discriminate).
      right. split; [|discriminate]. apply in_tagged_columns. by left.
  - intros N2 H3. rewrite (harmonize_second_alias file df N2 H3).
    assert (Htag : In "AGE3" (columns (setitem_scalar df "source_file" (VStr file))))
      by (apply in_tagged_columns; by left).
    split; [by apply renamed_alias_cells|].
    cbn [rename columns]. rewrite in_renamed_columns by (assumption || discriminate).
    intros [Heq | [_ Hne]]; [discriminate | done].
  - intros N2 N3. split; [by apply harmonize_no_alias|].
    rewrite harmonize_has_age. tauto.
Qed.

Lemma age_alias_renamed_first_match_first_witness :
  Forall2 (fun r r' => cell r' "AGE" = cell r "AGE2")
          (rows file_2022) (rows (harmonize "2022.txt" file_2022)) /\
  ~ In "AGE2" (columns (harmonize "2022.txt" file_2022)).
Proof.
  destruct (age_alias_renamed_first_match_first "2022.txt" file_2022)
    as [Hfirst _].
  - repeat constructor.
  - simpl. intros [H | [H | [H | []]]]; discriminate.
  - destruct Hfirst as (Hcells & Hcols & _); [simpl; tauto | by split].
Defined.

(** ** The columns of the final table *)

(** X12.  The columns of what the orchestrator returns: the derived
    [year], and exactly those labels of the harmonized table (the labels
    common to all parsed files, AGE, [source_file]) that start with one
    of the eight prefixes. *)
Theorem final_table_columns `{SetOrder} (dir : directory) (out : DataFrame) :
  snd (preprocess_data dir) = Ok out ->
  forall c, In c (columns out) <->
            c = "year" \/
            (starts_with_a_prefix c /\ harmonized_label (parsed_frames dir) c).
Proof.
  intros Hout c.
  apply preprocess_data_inv in Hout as (L & HL & _ & Hsf & _ & ->).
  assert (HLne : columns L <> []) by (by destruct (columns L)).
  destruct (loader_nonempty_shares dir L HL HLne) as [Hne Hshare].
  pose proof (loader_normal_columns dir L Hne Hshare HL c) as HcL.
  fold (harmonized_label (parsed_frames dir) c) in HcL.
  cbn [columns cols_filtered age_filtered].
  rewrite in_app_iff, in_project_labels, filter_In, has_prefix_spec, HcL.
  simpl. split.
  - intros [[[Hlab Hpre] _] | [<- | []]]; [right; by split | by left].
  - intros [-> | [Hpre Hlab]]; [right; by left | left; by repeat split].
Qed.

Lemma final_table_columns_witness :
  exists out,
    snd (preprocess_data scenario) = Ok out /\
    forall c, In c (columns out) <->
              c = "year" \/
              (starts_with_a_prefix c /\ harmonized_label (parsed_frames scenario) c).
Proof.
  destruct (round_trip_of_directory scenario)
    as (L & A & out & r1 & r2 & _ & _ & _ & _ & _ & _ & Hfinal & _);
    [by left | reflexivity |].
  exists out.
  assert (Hout : snd (preprocess_data scenario) = Ok out) by (by rewrite Hfinal).
  split; [assumption|].
  exact (final_table_columns scenario out Hout).
Defined.
